(** * GovData: query interpretation, relevance scoring and recommendations

    A shallow embedding of the decision logic of the GovData repository:
    - [src/lib/nlp.ts]              the query interpreter ([processQuery]);
    - [src/app/api/search/route.ts] the relevance scorer and the handler's
                                    guarded call of the interpreter;
    - [src/lib/recommendations.ts]  the similarity function and the four
                                    recommendation entry points (the file
                                    is [src/unnamed/part_001] here);
    - [src/app/api/recommendations/route.ts]
                                    the handler that calls the four entry
                                    points;
    - [src/components/SearchFilters.tsx]
                                    the request for recommendations that the
                                    page sends after a search.

    Conventions of the embedding.
    - Text is [string]: a sequence of 8-bit characters.  Case mapping and the
      character classes of regular expressions are the ASCII ones; characters
      above 127 have no case, are no word characters and no white space.
    - JavaScript numbers that only ever hold counts are [Z]; numbers that hold
      decimal weights (confidence, similarity, recommendation scores) are
      exact rationals [Q], so the rounding of binary floating point is not
      part of the model.
    - An exception is a value: code that can throw returns [result].
    - [JSON.parse] and the Prisma client are not code of the repository.  The
      first is a parameter of the functions that call it, the second a record
      of query functions; concrete instances of both are given for the
      worked examples. *)

From Stdlib Require Import ZArith QArith String Ascii List Bool Lia Permutation.
From Stdlib Require Import DecimalString Qminmax.
From stdpp Require Import base list strings gmap sorting.

Open Scope string_scope.
Open Scope list_scope.
Open Scope Z_scope.

(* ================================================================== *)
(** * The JavaScript runtime the sources rely on *)
(* ================================================================== *)

Module JS.

(** ** Characters *)

Definition code (c : ascii) : nat := nat_of_ascii c.

Definition between (lo hi : nat) (c : ascii) : bool :=
  (Nat.leb lo (code c)) && (Nat.leb (code c) hi).

Definition isUpper : ascii -> bool := between 65 90.
Definition isLower : ascii -> bool := between 97 122.
(** [\d] *)
Definition isDigit : ascii -> bool := between 48 57.
(** [\w] : letters, digits and the underscore *)
Definition isWord (c : ascii) : bool :=
  isUpper c || isLower c || isDigit c || Nat.eqb (code c) 95.
(** [\s] : tab, line feed, vertical tab, form feed, carriage return, space *)
Definition isSpace (c : ascii) : bool :=
  between 9 13 c || Nat.eqb (code c) 32.
(** the characters [.] does not match *)
Definition isLineTerminator (c : ascii) : bool :=
  Nat.eqb (code c) 10 || Nat.eqb (code c) 13.

Definition lowerChar (c : ascii) : ascii :=
  if isUpper c then ascii_of_nat (code c + 32) else c.

(** ** Strings *)

(** [s.toLowerCase()] *)
Fixpoint toLowerCase (s : string) : string :=
  match s with
  | EmptyString => EmptyString
  | String c r => String (lowerChar c) (toLowerCase r)
  end.

(** [s.includes(t)] : [t] occurs in [s] as a contiguous run *)
Fixpoint includes (s t : string) : bool :=
  String.prefix t s ||
  match s with
  | EmptyString => false
  | String _ r => includes r t
  end.

Fixpoint trimStart (s : string) : string :=
  match s with
  | EmptyString => EmptyString
  | String c r => if isSpace c then trimStart r else s
  end.

Fixpoint trimEnd (s : string) : string :=
  match s with
  | EmptyString => EmptyString
  | String c r =>
      match trimEnd r with
      | EmptyString => if isSpace c then EmptyString else String c EmptyString
      | r' => String c r'
      end
  end.

(** [s.trim()] *)
Definition trim (s : string) : string := trimEnd (trimStart s).

(** [s.replace(/[^\w\s]/g, ' ')] *)
Fixpoint replaceNonWordNonSpace (s : string) : string :=
  match s with
  | EmptyString => EmptyString
  | String c r =>
      String (if isWord c || isSpace c then c else " "%char)
             (replaceNonWordNonSpace r)
  end.

(** Prepends a character to the piece under construction. *)
Definition consPiece (c : ascii) (pieces : list string) : list string :=
  match pieces with
  | p :: ps => String c p :: ps
  | [] => [String c EmptyString]
  end.

(** [s.split(/\s+/)] : the pieces between maximal runs of white space.  A
    run at either end leaves an empty piece there, and the empty string
    splits into one empty piece.  [inRun] tells that the previous character
    belonged to a run. *)
Fixpoint splitSpacesFrom (inRun : bool) (s : string) : list string :=
  match s with
  | EmptyString => [EmptyString]
  | String c r =>
      if isSpace c then
        if inRun then splitSpacesFrom true r
        else EmptyString :: splitSpacesFrom true r
      else consPiece c (splitSpacesFrom false r)
  end.

Definition splitSpaces (s : string) : list string := splitSpacesFrom false s.

(** [s.split(sep)] for a separator of one character: a piece ends at every
    occurrence of [sep]. *)
Fixpoint splitChar (sep : ascii) (s : string) : list string :=
  match s with
  | EmptyString => [EmptyString]
  | String c r =>
      if Ascii.eqb c sep then EmptyString :: splitChar sep r
      else consPiece c (splitChar sep r)
  end.

(** ** Regular expressions

    The fragment the sources use.  Matching is the backtracking search of
    ECMAScript: alternatives are tried left to right, [.*] takes as much as it
    can and gives back one character at a time, and the first way through
    that reaches the end of the pattern is the match. *)

Inductive regex : Type :=
| Lit (s : string)
| Digit
| AnyStar
| WordBoundary
| Seq (r1 r2 : regex)
| Alt (r1 r2 : regex).

Definition optWord (c : option ascii) : bool :=
  match c with Some c => isWord c | None => false end.

Definition headChar (s : string) : option ascii :=
  match s with EmptyString => None | String c _ => Some c end.

(** [\b] holds between [prev] and the rest [s]. *)
Definition atBoundary (prev : option ascii) (s : string) : bool :=
  xorb (optWord prev) (optWord (headChar s)).

Definition sameChar (icase : bool) (a b : ascii) : bool :=
  if icase then Ascii.eqb (lowerChar a) (lowerChar b) else Ascii.eqb a b.

Section Matching.
Variable icase : bool.
(** What to do with the position reached: the last character consumed and
    the text left. *)
Definition cont : Type := option ascii -> string -> option string.

Fixpoint matchLit (lit : string) (prev : option ascii) (s : string) (k : cont)
  : option string :=
  match lit with
  | EmptyString => k prev s
  | String l lit' =>
      match s with
      | String c r => if sameChar icase l c then matchLit lit' (Some c) r k else None
      | EmptyString => None
      end
  end.

Fixpoint matchAnyStar (prev : option ascii) (s : string) (k : cont)
  : option string :=
  match s with
  | String c r =>
      if isLineTerminator c then k prev s
      else match matchAnyStar (Some c) r k with
           | Some rest => Some rest
           | None => k prev s
           end
  | EmptyString => k prev s
  end.

Fixpoint matchRegex (r : regex) (prev : option ascii) (s : string) (k : cont)
  : option string :=
  match r with
  | Lit lit => matchLit lit prev s k
  | Digit =>
      match s with
      | String c rest => if isDigit c then k (Some c) rest else None
      | EmptyString => None
      end
  | AnyStar => matchAnyStar prev s k
  | WordBoundary => if atBoundary prev s then k prev s else None
  | Seq r1 r2 => matchRegex r1 prev s (fun p rest => matchRegex r2 p rest k)
  | Alt r1 r2 =>
      match matchRegex r1 prev s k with
      | Some rest => Some rest
      | None => matchRegex r2 prev s k
      end
  end.

(** The length of the match that starts here, if there is one. *)
Definition matchAt (r : regex) (prev : option ascii) (s : string) : option nat :=
  match matchRegex r prev s (fun _ rest => Some rest) with
  | Some rest => Some (String.length s - String.length rest)%nat
  | None => None
  end.

Fixpoint testFrom (r : regex) (prev : option ascii) (s : string) : bool :=
  match matchAt r prev s with
  | Some _ => true
  | None =>
      match s with
      | EmptyString => false
      | String c rest => testFrom r (Some c) rest
      end
  end.

(** [skip] characters still belong to the match found last. *)
Fixpoint matchAllFrom (r : regex) (skip : nat) (prev : option ascii) (s : string)
  : list string :=
  match skip with
  | S n =>
      match s with
      | EmptyString => []
      | String c rest => matchAllFrom r n (Some c) rest
      end
  | O =>
      match matchAt r prev s with
      | Some len =>
          substring 0 len s ::
          match s with
          | EmptyString => []
          | String c rest => matchAllFrom r (Nat.pred len) (Some c) rest
          end
      | None =>
          match s with
          | EmptyString => []
          | String c rest => matchAllFrom r 0 (Some c) rest
          end
      end
  end.
End Matching.

(** [pattern.test(s)] for a pattern without the [g] flag *)
Definition test (icase : bool) (r : regex) (s : string) : bool :=
  testFrom icase r None s.

(** [s.match(pattern)] for a pattern with the [g] flag: every match, left to
    right, none overlapping; the empty list stands for [null]. *)
Definition matchAll (icase : bool) (r : regex) (s : string) : list string :=
  matchAllFrom icase r 0 None s.

(** [(a|b|...)] over literal alternatives *)
Fixpoint oneOf (alts : list string) : regex :=
  match alts with
  | [] => Lit EmptyString
  | [a] => Lit a
  | a :: rest => Alt (Lit a) (oneOf rest)
  end.

(** [\b(...)\b] *)
Definition wholeWord (r : regex) : regex := Seq WordBoundary (Seq r WordBoundary).

(** ** Arrays *)

(** [xs.includes(x)] on an array of strings *)
Definition arrayIncludes (xs : list string) (x : string) : bool :=
  existsb (String.eqb x) xs.

(** [[...new Set(xs)]] : the first occurrence of every element, in order *)
Fixpoint uniqueFrom (seen : list string) (xs : list string) : list string :=
  match xs with
  | [] => []
  | x :: rest =>
      if arrayIncludes seen x then uniqueFrom seen rest
      else x :: uniqueFrom (x :: seen) rest
  end.

Definition unique (xs : list string) : list string := uniqueFrom [] xs.

Section Arrays.
Context {A : Type}.

(** [xs.findIndex(p)], [-1] when no element satisfies [p] *)
Fixpoint findIndexFrom (p : A -> bool) (i : Z) (xs : list A) : Z :=
  match xs with
  | [] => -1
  | x :: rest => if p x then i else findIndexFrom p (i + 1) rest
  end.

Definition findIndex (p : A -> bool) (xs : list A) : Z := findIndexFrom p 0 xs.

(** [xs.filter((x, index) => p x index)] *)
Fixpoint filterIndexedFrom (p : A -> Z -> bool) (i : Z) (xs : list A) : list A :=
  match xs with
  | [] => []
  | x :: rest =>
      if p x i then x :: filterIndexedFrom p (i + 1) rest
      else filterIndexedFrom p (i + 1) rest
  end.

Definition filterIndexed (p : A -> Z -> bool) (xs : list A) : list A :=
  filterIndexedFrom p 0 xs.

(** [xs.slice(0, stop)] : a negative [stop] counts from the end *)
Definition slice0 (xs : list A) (stop : Z) : list A :=
  let len := Z.of_nat (length xs) in
  let final := if stop <? 0 then Z.max (len + stop) 0 else Z.min stop len in
  take (Z.to_nat final) xs.

(** [xs.sort(compare)].  The sort is stable, so for a comparator that orders
    consistently the result is the one list that is sorted and keeps equal
    elements in their order of arrival; insertion from the right computes
    it.  [before a b] says that [compare(a, b)] is negative. *)
Fixpoint insertSorted (before : A -> A -> bool) (x : A) (sorted : list A) : list A :=
  match sorted with
  | [] => [x]
  | y :: rest =>
      if before y x then y :: insertSorted before x rest
      else x :: sorted
  end.

Fixpoint sortBy (before : A -> A -> bool) (xs : list A) : list A :=
  match xs with
  | [] => []
  | x :: rest => insertSorted before x (sortBy before rest)
  end.

(** a comparator with integer results *)
Definition sortZ (compare : A -> A -> Z) : list A -> list A :=
  sortBy (fun a b => compare a b <? 0).

(** a comparator with fractional results: the sign of a rational is the
    sign of its numerator *)
Definition sortQ (compare : A -> A -> Q) : list A -> list A :=
  sortBy (fun a b => Qnum (compare a b) <? 0).
End Arrays.

(** ** Objects used as maps

    An object with string keys lists its keys in the order they were first
    set (none of the keys used here looks like an array index). *)

Fixpoint objectSet {V : Type} (o : list (string * V)) (k : string) (v : V)
  : list (string * V) :=
  match o with
  | [] => [(k, v)]
  | (k', v') :: rest =>
      if String.eqb k' k then (k', v) :: rest
      else (k', v') :: objectSet rest k v
  end.

Fixpoint objectGet {V : Type} (o : list (string * V)) (k : string) : option V :=
  match o with
  | [] => None
  | (k', v) :: rest => if String.eqb k' k then Some v else objectGet rest k
  end.

(** ** Numbers *)

Definition ofNat (n : nat) : Q := inject_Z (Z.of_nat n).

(** [Math.min] *)
Definition mathMin (a b : Q) : Q := if Qle_bool a b then a else b.

(** ** Exceptions *)

Inductive exn : Type :=
| SyntaxError      (* JSON.parse on text it does not accept *)
| TypeError
| StoreError.      (* a rejected query of the data store *)

Inductive result (A : Type) : Type :=
| Ok (a : A)
| Throw (e : exn).
Arguments Ok {A} a.
Arguments Throw {A} e.

#[export] Instance result_ret : MRet result := fun A a => Ok a.
#[export] Instance result_bind : MBind result := fun A B f m =>
  match m with
  | Ok a => f a
  | Throw e => Throw e
  end.

(** [try { body } catch { handler }] *)
Definition tryCatch {A : Type} (body : result A) (handler : exn -> A) : A :=
  match body with
  | Ok a => a
  | Throw e => handler e
  end.

(** [xs.forEach(x => body)] where the body updates the state [s] and may
    throw: the first exception ends the loop. *)
Fixpoint forEach {A S : Type} (xs : list A) (body : S -> A -> result S) (s : S)
  : result S :=
  match xs with
  | [] => Ok s
  | x :: rest => s' ← body s x; forEach rest body s'
  end.

(** ** JSON

    The store keeps the keyword and the domain list of a dataset as JSON text
    (schema: [keywords String // JSON array of searchable keywords]).  A
    parser is taken as a function that answers [Some xs] on text that denotes
    an array of strings and [None] on any other text; the embedding lets
    [JSON.parse] throw in the second case. *)

Definition jsonParser : Type := string -> option (list string).

(** [text || fallback] on strings: the empty string is falsy *)
Definition orElse (text fallback : string) : string :=
  if String.eqb text EmptyString then fallback else text.

(** [JSON.parse(text || '[]')] *)
Definition parseOrEmpty (JSON_parse : jsonParser) (text : string) : result (list string) :=
  match JSON_parse (orElse text "[]") with
  | Some xs => Ok xs
  | None => Throw SyntaxError
  end.

(** [(() => { try { return JSON.parse(text || '[]') } catch { return [] } })()] *)
Definition parseOrEmptyGuarded (JSON_parse : jsonParser) (text : string) : list string :=
  tryCatch (parseOrEmpty JSON_parse text) (fun _ => []).

(** A count inside a template literal. *)
Definition showNat (n : nat) : string := NilEmpty.string_of_uint (Nat.to_uint n).

End JS.

(* ================================================================== *)
(** * The query interpreter, [src/lib/nlp.ts] *)
(* ================================================================== *)

Module Nlp.
Import JS.

Inductive intent : Type := search | question | comparison | trend.

Record ProcessedQuery : Type := {
  originalQuery : string;
  keywords : list string;
  domains : list string;
  queryIntent : intent;
  entities : list string;
  confidence : Q
}.

Definition DOMAIN_KEYWORDS : list (string * list string) := [
  ("labour", [
    "employment"; "unemployment"; "workforce"; "job"; "labor"; "labour"; "occupation";
    "wage"; "salary"; "income"; "participation"; "work"; "career"; "skill"; "training"]);
  ("health", [
    "health"; "medical"; "hospital"; "disease"; "wellbeing"; "mental"; "aged care";
    "elderly"; "nursing"; "doctor"; "patient"; "treatment"; "medicine"]);
  ("housing", [
    "housing"; "home"; "property"; "rent"; "mortgage"; "affordable"; "homeless";
    "accommodation"; "dwelling"; "real estate"; "rental"; "household"]);
  ("education", [
    "education"; "school"; "university"; "training"; "learning"; "student";
    "teacher"; "qualification"; "degree"; "course"; "skill development"]);
  ("ageing", [
    "ageing"; "elderly"; "senior"; "retirement"; "pension"; "aged"; "population ageing";
    "longevity"; "geriatric"; "older people"]);
  ("inequality", [
    "inequality"; "poverty"; "wealth"; "disparity"; "gap"; "distribution"; "equity";
    "socioeconomic"; "disadvantage"; "income distribution"]);
  ("population", [
    "population"; "demographic"; "census"; "birth"; "death"; "migration"; "fertility";
    "mortality"; "age structure"; "regional"])
].

(** Each pattern carries the [i] flag. *)
Definition QUESTION_PATTERNS : list (regex * intent) := [
  (wholeWord (oneOf ["what"; "which"; "where"; "how many"; "how much"]), search);
  (wholeWord (oneOf ["show me"; "tell me"; "give me"]), search);
  (wholeWord (oneOf ["compare"; "versus"; "vs"; "difference"]), comparison);
  (wholeWord (Alt (Lit "trend") (Alt (Lit "change") (Alt (Lit "over time")
     (Alt (Lit "since") (Seq (Lit "from") (Seq AnyStar (Lit "to"))))))), trend)
].

(** The pattern and whether it carries the [i] flag; all carry [g]. *)
Definition ENTITY_PATTERNS : list (regex * bool) := [
  (wholeWord (oneOf ["act"; "nsw"; "qld"; "sa"; "tas"; "vic"; "wa"; "nt"]), true);
  (wholeWord (Alt (Seq (Lit "201") Digit) (Seq (Lit "202") Digit)), false);
  (wholeWord (oneOf ["january"; "february"; "march"; "april"; "may"; "june"; "july";
                     "august"; "september"; "october"; "november"; "december"]), true)
].

Definition stopWords : list string := [
  "the"; "a"; "an"; "and"; "or"; "but"; "in"; "on"; "at"; "to"; "for"; "of"; "with";
  "by"; "is"; "are"; "was"; "were"; "be"; "been"; "being"; "have"; "has"; "had"; "do";
  "does"; "did"; "will"; "would"; "could"; "should"; "may"; "might"; "must"; "can";
  "shall"].

(** The filter of [extractKeywords]. *)
Definition keepWord (word : string) : bool :=
  Nat.ltb 2 (String.length word) && negb (arrayIncludes stopWords word).

(** The words of [extractKeywords] before the filter. *)
Definition tokens (query : string) : list string :=
  splitSpaces (replaceNonWordNonSpace query).

Definition extractKeywords (query : string) : list string :=
  let words := List.filter keepWord (tokens query) in
  unique words.

(** The test of the inner loop of [detectDomains]. *)
Definition matchesDomainKeyword (domainKeywords : list string) (keyword : string) : bool :=
  existsb (fun dk => includes dk keyword || includes keyword dk) domainKeywords.

(** The body of the loop over [Object.entries(DOMAIN_KEYWORDS)], up to the
    test of the score. *)
Definition domainScore (query : string) (keywords : list string)
    (domain : string) (domainKeywords : list string) : Z :=
  let score := 0 in
  let score :=
    fold_left (fun score keyword =>
                 if matchesDomainKeyword domainKeywords keyword then score + 1 else score)
              keywords score in
  let score := if includes query domain then score + 2 else score in
  score.

Definition collectDomainScores (query : string) (keywords : list string)
  : list (string * Z) :=
  fold_left (fun domainScores '(domain, domainKeywords) =>
               let score := domainScore query keywords domain domainKeywords in
               if 0 <? score then objectSet domainScores domain score
               else domainScores)
            DOMAIN_KEYWORDS [].

Definition detectDomains (query : string) (keywords : list string) : list string :=
  let domainScores := collectDomainScores query keywords in
  map fst (sortZ (fun '(_, a) '(_, b) => b - a) domainScores).

Fixpoint detectIntentIn (patterns : list (regex * intent)) (query : string) : intent :=
  match patterns with
  | [] => search
  | (pattern, i) :: rest =>
      if test true pattern query then i else detectIntentIn rest query
  end.

Definition detectIntent (query : string) : intent :=
  detectIntentIn QUESTION_PATTERNS query.

Definition extractEntities (query : string) : list string :=
  let entities :=
    fold_left (fun entities '(pattern, icase) => entities ++ matchAll icase pattern query)
              ENTITY_PATTERNS [] in
  unique entities.

Definition calculateConfidence (keywords domains entities : list string) : Q :=
  let confidence := 0.5%Q in
  let confidence := (confidence + mathMin (ofNat (length keywords) * 0.1) 0.3)%Q in
  let confidence := (confidence + ofNat (length domains) * 0.1)%Q in
  let confidence := (confidence + ofNat (length entities) * 0.1)%Q in
  mathMin confidence 0.9%Q.

Definition processQuery (query : string) : ProcessedQuery :=
  let normalizedQuery := trim (toLowerCase query) in
  let keywords := extractKeywords normalizedQuery in
  let domains := detectDomains normalizedQuery keywords in
  let intent := detectIntent normalizedQuery in
  let entities := extractEntities normalizedQuery in
  let confidence := calculateConfidence keywords domains entities in
  {| originalQuery := query;
     keywords := keywords;
     domains := domains;
     queryIntent := intent;
     entities := entities;
     confidence := confidence |}.

Definition synonyms : list (string * list string) := [
  ("employment", ["jobs"; "workforce"; "labor"]);
  ("unemployment", ["jobless"; "out of work"]);
  ("housing", ["accommodation"; "shelter"; "dwelling"]);
  ("aged care", ["elderly care"; "senior care"; "geriatric care"]);
  ("education", ["learning"; "training"; "qualification"]);
  ("inequality", ["disparity"; "gap"; "imbalance"])
].

Definition getRelatedTerms (query : string) : list string :=
  let processed := processQuery query in
  let relatedTerms :=
    fold_left (fun relatedTerms domain =>
                 let domainTerms := default [] (objectGet DOMAIN_KEYWORDS domain) in
                 relatedTerms ++ slice0 domainTerms 3)
              (domains processed) [] in
  let relatedTerms :=
    fold_left (fun relatedTerms keyword =>
                 fold_left (fun relatedTerms '(term, syns) =>
                              if includes keyword term || includes term keyword
                              then relatedTerms ++ syns else relatedTerms)
                           synonyms relatedTerms)
              (keywords processed) relatedTerms in
  unique relatedTerms.

Definition fourDigits : regex := Seq Digit (Seq Digit (Seq Digit Digit)).

Definition generateSuggestions (query : string) : list string :=
  let processed := processQuery query in
  let suggestions :=
    fold_left (fun suggestions domain =>
                 if String.eqb domain "labour" then
                   suggestions ++ [query +:+ " by state"; query +:+ " trends";
                                   query +:+ " by age group"; query +:+ " and skills"]
                 else if String.eqb domain "health" then
                   suggestions ++ [query +:+ " by region"; query +:+ " statistics";
                                   query +:+ " and demographics"]
                 else if String.eqb domain "housing" then
                   suggestions ++ [query +:+ " affordability"; query +:+ " by location";
                                   query +:+ " and income"]
                 else suggestions)
              (domains processed) [] in
  let suggestions :=
    if negb (existsb (fun e => test false fourDigits e) (entities processed))
    then suggestions ++ [query +:+ " in 2023"; query +:+ " since 2015"]
    else suggestions in
  slice0 suggestions 4.

End Nlp.

(* ================================================================== *)
(** * Rows of the data store, as both modules read them *)
(* ================================================================== *)

Module Schema.
Record Tag : Type := { tagName : string }.
Record Agency : Type := { agencyName : string }.
End Schema.

(* ================================================================== *)
(** * The search handler, [src/app/api/search/route.ts] *)
(* ================================================================== *)

Module Search.
Import JS Schema.

(** [Array<{ id: string }>] *)
Record RelationRef : Type := { relationId : string }.

Record DatasetWithAgency : Type := {
  id : string;
  name : string;
  description : string;
  keywords : string;
  tags : list Tag;
  agency : Agency;
  relatedFrom : list RelationRef;
  relatedTo : list RelationRef
}.

Section Scoring.
Variable JSON_parse : jsonParser.

Definition calculateRelevanceScore (dataset : DatasetWithAgency) (query : string)
    (searchTerms : list string) : result Z :=
  let score := 0 in
  let score :=
    if includes (toLowerCase (name dataset)) (toLowerCase query)
    then score + 100 else score in
  let score :=
    if includes (toLowerCase (description dataset)) (toLowerCase query)
    then score + 50 else score in
  keywords ← parseOrEmpty JSON_parse (keywords dataset);
  let score :=
    fold_left (fun score term =>
                 if existsb (fun keyword => includes (toLowerCase keyword) term) keywords
                 then score + 25 else score)
              searchTerms score in
  let score :=
    fold_left (fun score tag =>
                 if includes (toLowerCase (tagName tag)) (toLowerCase query)
                 then score + 20 else score)
              (tags dataset) score in
  let totalRelations :=
    Z.of_nat (length (relatedFrom dataset)) + Z.of_nat (length (relatedTo dataset)) in
  let score := score + totalRelations * 10 in
  mret score.
End Scoring.

(** What the handler holds after its guarded call of the interpreter. *)
Record Interpretation : Type := {
  processedQuery : Nlp.ProcessedQuery;
  relatedTerms : list string;
  suggestions : list string
}.

(** The inner [try]/[catch] of [GET].  The three calls are parameters, so that
    the handler can be read against steps that throw; [interpret] below is
    the handler with the three functions of [nlp.ts]. *)
Section GuardedCall.
Variable processQuery : string -> result Nlp.ProcessedQuery.
Variable getRelatedTerms : string -> result (list string).
Variable generateSuggestions : string -> result (list string).

Definition fallbackQuery (query : string) : Nlp.ProcessedQuery :=
  {| Nlp.originalQuery := query;
     Nlp.keywords := splitChar " " query;
     Nlp.domains := [];
     Nlp.queryIntent := Nlp.search;
     Nlp.entities := [];
     Nlp.confidence := 0.5%Q |}.

Definition interpretGuarded (query : string) : Interpretation :=
  tryCatch
    (processedQuery ← processQuery query;
     relatedTerms ← getRelatedTerms query;
     suggestions ← generateSuggestions query;
     mret {| processedQuery := processedQuery;
             relatedTerms := relatedTerms;
             suggestions := suggestions |})
    (fun nlpError =>
       {| processedQuery := fallbackQuery query;
          relatedTerms := [];
          suggestions := [] |}).
End GuardedCall.

(** The handler has answered 400 to a missing or empty query before it
    comes here. *)
Definition interpret (query : string) : Interpretation :=
  interpretGuarded (fun q => Ok (Nlp.processQuery q))
                   (fun q => Ok (Nlp.getRelatedTerms q))
                   (fun q => Ok (Nlp.generateSuggestions q))
                   query.

End Search.

(* ================================================================== *)
(** * The recommendation engine, [src/lib/recommendations.ts] *)
(* ================================================================== *)

Module Recommendations.
Import JS Schema.

Record DatasetType : Type := {
  id : string;
  name : string;
  description : string;
  keywords : string;
  domains : string;
  tags : list Tag;
  agencyId : string;
  agency : Agency;
  accessibility : string
}.

(** A [DatasetRelation] row with the dataset the query includes: [to] for an
    element of [relatedFrom], [from] for an element of [relatedTo]. *)
Record DatasetRelation : Type := {
  relationType : string;
  relationDescription : option string;
  included : DatasetType
}.

(** The answer of [findUnique] with both relation lists included. *)
Record CurrentDataset : Type := {
  current : DatasetType;
  relatedFrom : list DatasetRelation;
  relatedTo : list DatasetRelation
}.

(** A row of the trending query, with [_count] selected. *)
Record CountedDataset : Type := {
  counted : DatasetType;
  countRelatedFrom : Z;
  countRelatedTo : Z
}.

(** [{ ...dataset, keywords: [...], domains: [...] }] : the row with its two
    JSON fields replaced by arrays. *)
Record ParsedDataset : Type := {
  row : DatasetType;
  keywordList : list string;
  domainList : list string
}.

(** ['related' | 'domain' | 'keyword' | 'agency' | 'trending'] *)
Inductive recommendationType : Type :=
  TypeRelated | TypeDomain | TypeKeyword | TypeAgency | TypeTrending.

Record DatasetRecommendation : Type := {
  dataset : ParsedDataset;
  score : Q;
  reason : string;
  type : recommendationType
}.

Record RecommendationContext : Type := {
  currentDataset : option DatasetType;
  searchQuery : option string;
  contextDomains : option (list string);
  contextKeywords : option (list string);
  userHistory : option (list string)
}.

(** The queries the module sends through [prisma.dataset], one field for each
    [where] clause it writes; every query can be rejected. *)
Record PrismaClient : Type := {
  (** [findUnique({ where: { id }, include: { relatedFrom, relatedTo, ... } })] *)
  findUnique : string -> result (option CurrentDataset);
  (** [findMany({ where: { id: { not }, domains: { contains } }, take })] *)
  findManyInDomainExcept : string -> string -> Z -> result (list DatasetType);
  (** [findMany({ where: { id: { not }, agencyId }, take })] *)
  findManyOfAgencyExcept : string -> string -> Z -> result (list DatasetType);
  (** [findMany({ where: { domains: { contains } }, take })] *)
  findManyInDomain : string -> Z -> result (list DatasetType);
  (** [findMany({ where: { OR: [{ keywords: { contains } }, ...] }, take })] *)
  findManyWithKeywords : list string -> Z -> result (list DatasetType);
  (** [findMany({ where: { accessibility: 'api', apiEndpoint: { not: null } }, take })] *)
  findManyApiAccessible : Z -> result (list DatasetType);
  (** [findMany({ include: { _count }, orderBy: { updatedAt: 'desc' }, take })] *)
  findManyRecentlyUpdated : Z -> result (list CountedDataset)
}.

(** [(rec, index, self) => index === self.findIndex(r => r.dataset.id === rec.dataset.id)] *)
Definition isFirstOfItsDataset (self : list DatasetRecommendation)
    (rec : DatasetRecommendation) (index : Z) : bool :=
  index =? findIndex (fun r => String.eqb (id (row (dataset r))) (id (row (dataset rec)))) self.

(** [(a, b) => b.score - a.score] *)
Definition byScoreDescending (a b : DatasetRecommendation) : Q :=
  (score b - score a)%Q.

Section Engine.
Variable JSON_parse : jsonParser.
Variable prisma : PrismaClient.

Definition calculateSimilarity (dataset1 dataset2 : DatasetType) : result Q :=
  let similarity := 0%Q in
  domains1 ← parseOrEmpty JSON_parse (domains dataset1);
  domains2 ← parseOrEmpty JSON_parse (domains dataset2);
  let domainOverlap :=
    length (List.filter (fun d => arrayIncludes domains2 d) domains1) in
  let similarity := (similarity + ofNat domainOverlap * 0.3)%Q in
  keywords1 ← parseOrEmpty JSON_parse (keywords dataset1);
  keywords2 ← parseOrEmpty JSON_parse (keywords dataset2);
  let keywordOverlap :=
    length (List.filter
              (fun k => existsb (fun k2 => includes k2 k || includes k k2) keywords2)
              keywords1) in
  let similarity := (similarity + ofNat keywordOverlap * 0.2)%Q in
  let tags1 := map tagName (tags dataset1) in
  let tags2 := map tagName (tags dataset2) in
  let tagOverlap := length (List.filter (fun t => arrayIncludes tags2 t) tags1) in
  let similarity := (similarity + ofNat tagOverlap * 0.25)%Q in
  let similarity :=
    if String.eqb (agencyId dataset1) (agencyId dataset2)
    then (similarity + 0.1)%Q else similarity in
  let similarity :=
    if String.eqb (accessibility dataset1) "api" && String.eqb (accessibility dataset2) "api"
    then (similarity + 0.15)%Q else similarity in
  mret similarity.

(** [description || 'Direct relationship'] : [null] and the empty string
    are both falsy. *)
Definition descriptionOrDefault (description : option string) : string :=
  match description with
  | Some text => orElse text "Direct relationship"
  | None => "Direct relationship"
  end.

(** Step 1 of [getRelatedRecommendations]: the recommendations pushed for
    the direct relationships of the dataset found. *)
Definition directRecommendations (currentDataset : CurrentDataset)
  : list DatasetRecommendation :=
  let directRelations :=
    map (fun r => (included r, relationType r, relationDescription r))
        (relatedFrom currentDataset) ++
    map (fun r => (included r, relationType r, relationDescription r))
        (relatedTo currentDataset) in
  map (fun '(dataset, relationType, description) =>
         {| dataset :=
              {| row := dataset;
                 keywordList := parseOrEmptyGuarded JSON_parse (keywords dataset);
                 domainList := parseOrEmptyGuarded JSON_parse (domains dataset) |};
            score := 1.0%Q;
            reason := relationType +:+ ": " +:+ descriptionOrDefault description;
            type := TypeRelated |})
      directRelations.

(** Step 2: datasets of the primary domain, kept when similar enough. *)
Definition domainRecommendations (datasetId : string) (currentDataset : CurrentDataset)
    (recommendations : list DatasetRecommendation)
  : result (list DatasetRecommendation) :=
  domainNames ← parseOrEmpty JSON_parse (domains (current currentDataset));
  match domainNames with
  | [] => mret recommendations
  | primary :: _ =>
      domainDatasets ← findManyInDomainExcept prisma datasetId primary 10;
      forEach domainDatasets
        (fun recommendations dataset =>
           similarity ← calculateSimilarity (current currentDataset) dataset;
           if Qle_bool similarity 0.3 then mret recommendations
           else
             keywordList ← parseOrEmpty JSON_parse (keywords dataset);
             domainList ← parseOrEmpty JSON_parse (domains dataset);
             mret (recommendations ++
                   [{| dataset := {| row := dataset;
                                     keywordList := keywordList;
                                     domainList := domainList |};
                       score := (similarity * 0.8)%Q;
                       reason := "Same domain: " +:+ primary;
                       type := TypeDomain |}]))
        recommendations
  end.

(** Step 3: datasets of the same agency. *)
Definition agencyRecommendations (datasetId : string) (currentDataset : CurrentDataset)
    (recommendations : list DatasetRecommendation)
  : result (list DatasetRecommendation) :=
  agencyDatasets ←
    findManyOfAgencyExcept prisma datasetId (agencyId (current currentDataset)) 5;
  forEach agencyDatasets
    (fun recommendations dataset =>
       similarity ← calculateSimilarity (current currentDataset) dataset;
       mret (recommendations ++
             [{| dataset :=
                   {| row := dataset;
                      keywordList := parseOrEmptyGuarded JSON_parse (keywords dataset);
                      domainList := parseOrEmptyGuarded JSON_parse (domains dataset) |};
                 score := (similarity * 0.6)%Q;
                 reason := "From same agency: " +:+
                           agencyName (agency (current currentDataset));
                 type := TypeAgency |}]))
    recommendations.

(** The three steps of [getRelatedRecommendations] in a row: the array
    [recommendations] as it stands before duplicates are removed. *)
Definition collectRelated (datasetId : string) (currentDataset : CurrentDataset)
  : result (list DatasetRecommendation) :=
  let recommendations := [] in
  let recommendations := recommendations ++ directRecommendations currentDataset in
  recommendations ← domainRecommendations datasetId currentDataset recommendations;
  recommendations ← agencyRecommendations datasetId currentDataset recommendations;
  mret recommendations.

(** [recommendations.filter(...).sort(...).slice(0, limit)], the expression
    that ends [getRelatedRecommendations] and [getSearchRecommendations] *)
Definition uniqueRecommendations (recommendations : list DatasetRecommendation)
    (limit : Z) : list DatasetRecommendation :=
  slice0 (sortQ byScoreDescending
            (filterIndexed (isFirstOfItsDataset recommendations) recommendations))
         limit.

(** [limit] is [None] when the caller leaves the argument out. *)
Definition getRelatedRecommendations (datasetId : string) (limit : option Z)
  : result (list DatasetRecommendation) :=
  let limit := default 5 limit in
  found ← findUnique prisma datasetId;
  match found with
  | None => mret []
  | Some currentDataset =>
      recommendations ← collectRelated datasetId currentDataset;
      mret (uniqueRecommendations recommendations limit)
  end.

(** The array [recommendations] of [getSearchRecommendations] before
    duplicates are removed. *)
Definition collectSearch (context : RecommendationContext)
  : result (list DatasetRecommendation) :=
  let recommendations := [] in
  recommendations ←
    match contextDomains context with
    | Some (primary :: _) =>
        domainDatasets ← findManyInDomain prisma primary 10;
        forEach domainDatasets
          (fun recommendations dataset =>
             keywordList ← parseOrEmpty JSON_parse (keywords dataset);
             domainList ← parseOrEmpty JSON_parse (domains dataset);
             mret (recommendations ++
                   [{| dataset := {| row := dataset;
                                     keywordList := keywordList;
                                     domainList := domainList |};
                       score := 0.7%Q;
                       reason := "Popular in " +:+ primary +:+ " domain";
                       type := TypeDomain |}]))
          recommendations
    | _ => mret recommendations
    end;
  recommendations ←
    match contextKeywords context with
    | Some ((_ :: _) as contextKeywords) =>
        keywordDatasets ← findManyWithKeywords prisma contextKeywords 8;
        forEach keywordDatasets
          (fun recommendations dataset =>
             (* the callback of [filter] parses the text at every keyword:
                same text, same answer, and there is a first keyword *)
             datasetKeywords ← parseOrEmpty JSON_parse (keywords dataset);
             let keywordMatches :=
               length (List.filter
                         (fun keyword => existsb (fun k => includes k keyword) datasetKeywords)
                         contextKeywords) in
             keywordList ← parseOrEmpty JSON_parse (keywords dataset);
             domainList ← parseOrEmpty JSON_parse (domains dataset);
             mret (recommendations ++
                   [{| dataset := {| row := dataset;
                                     keywordList := keywordList;
                                     domainList := domainList |};
                       score := (0.5 + ofNat keywordMatches * 0.1)%Q;
                       reason := "Matches " +:+ showNat keywordMatches +:+ " search terms";
                       type := TypeKeyword |}]))
          recommendations
    | _ => mret recommendations
    end;
  apiDatasets ← findManyApiAccessible prisma 3;
  let recommendations :=
    recommendations ++
    map (fun dataset =>
           {| dataset :=
                {| row := dataset;
                   keywordList := parseOrEmptyGuarded JSON_parse (keywords dataset);
                   domainList := parseOrEmptyGuarded JSON_parse (domains dataset) |};
              score := 0.6%Q;
              reason := "Live data available via API";
              type := TypeKeyword |})
        apiDatasets in
  mret recommendations.

Definition getSearchRecommendations (context : RecommendationContext) (limit : option Z)
  : result (list DatasetRecommendation) :=
  let limit := default 5 limit in
  recommendations ← collectSearch context;
  mret (uniqueRecommendations recommendations limit).

Definition getTrendingDatasets (limit : option Z) : result (list DatasetRecommendation) :=
  let limit := default 5 limit in
  trendingRows ← findManyRecentlyUpdated prisma limit;
  mret (map (fun dataset =>
               {| dataset :=
                    {| row := counted dataset;
                       keywordList :=
                         parseOrEmptyGuarded JSON_parse (keywords (counted dataset));
                       domainList :=
                         parseOrEmptyGuarded JSON_parse (domains (counted dataset)) |};
                  score := inject_Z ((countRelatedFrom dataset + countRelatedTo dataset) * 10);
                  reason := "Trending dataset based on relationships";
                  type := TypeTrending |})
            trendingRows).

(** The loop of [getComplementaryDatasets]: the two best related
    recommendations of every seed, one seed after the other. *)
Definition collectComplementary (datasetIds : list string)
  : result (list DatasetRecommendation) :=
  let recommendations := [] in
  forEach datasetIds
    (fun recommendations datasetId =>
       relatedOnes ← getRelatedRecommendations datasetId (Some 2);
       mret (recommendations ++ relatedOnes))
    recommendations.

Definition getComplementaryDatasets (datasetIds : list string)
  : result (list DatasetRecommendation) :=
  recommendations ← collectComplementary datasetIds;
  mret (slice0
          (sortQ byScoreDescending
             (filterIndexed
                (fun rec index =>
                   isFirstOfItsDataset recommendations rec index &&
                   negb (arrayIncludes datasetIds (id (row (dataset rec)))))
                recommendations))
          5).
End Engine.

End Recommendations.

(* ================================================================== *)
(** * Instances for the worked examples *)
(* ================================================================== *)

(** A parser for the JSON texts the seed script writes: an array of string
    literals without escape sequences, with optional white space between the
    tokens.  It answers [None] on every other text. *)
Module JsonText.
Import JS.

Definition quote : ascii := "034"%char.
Definition backslash : ascii := "092"%char.

(** space, tab, line feed, carriage return *)
Definition isJsonSpace (c : ascii) : bool :=
  Nat.eqb (code c) 32 || Nat.eqb (code c) 9 || Nat.eqb (code c) 10 || Nat.eqb (code c) 13.

Inductive state : Type :=
| Start                       (* before the opening bracket *)
| AfterOpen                   (* after the opening bracket *)
| InString (text : string)    (* inside a literal, [text] read so far *)
| AfterValue                  (* after a literal *)
| AfterComma
| Done.                       (* after the closing bracket *)

Fixpoint run (st : state) (values : list string) (s : string) : option (list string) :=
  match s with
  | EmptyString => match st with Done => Some values | _ => None end
  | String c rest =>
      match st with
      | InString text =>
          if Ascii.eqb c quote then run AfterValue (values ++ [text]) rest
          else if Ascii.eqb c backslash || Nat.ltb (code c) 32 then None
          else run (InString (text +:+ String c EmptyString)) values rest
      | _ =>
          if isJsonSpace c then run st values rest
          else
            match st with
            | Start => if Ascii.eqb c "["%char then run AfterOpen values rest else None
            | AfterOpen =>
                if Ascii.eqb c "]"%char then run Done values rest
                else if Ascii.eqb c quote then run (InString EmptyString) values rest
                else None
            | AfterValue =>
                if Ascii.eqb c "]"%char then run Done values rest
                else if Ascii.eqb c ","%char then run AfterComma values rest
                else None
            | AfterComma =>
                if Ascii.eqb c quote then run (InString EmptyString) values rest else None
            | _ => None
            end
      end
  end.

Definition parse : jsonParser := run Start [].

(** [JSON.stringify] of an array of strings that need no escaping *)
Fixpoint stringifyItems (xs : list string) : string :=
  match xs with
  | [] => EmptyString
  | [x] => String quote x +:+ String quote EmptyString
  | x :: rest => String quote x +:+ String quote "," +:+ stringifyItems rest
  end.

Definition stringify (xs : list string) : string :=
  "[" +:+ stringifyItems xs +:+ "]".

End JsonText.

(** A data store held in memory, answering the queries of [PrismaClient] the
    way the SQLite store of the repository does: [contains] is containment
    without regard to ASCII case, rows come in insertion order unless the
    query orders them, and a negative [take] counts from the end. *)
Module MemoryStore.
Import JS Schema Recommendations.

Record StoredDataset : Type := {
  stored : DatasetType;
  apiEndpoint : option string;
  updatedAt : Z
}.

Record StoredRelation : Type := {
  fromId : string;
  toId : string;
  storedType : string;
  storedDescription : option string
}.

Record Store : Type := {
  datasets : list StoredDataset;
  relations : list StoredRelation
}.

Definition contains (text part : string) : bool :=
  includes (toLowerCase text) (toLowerCase part).

Definition takeRows {A : Type} (n : Z) (rows : list A) : list A :=
  if n <? 0 then drop (length rows - Z.to_nat (- n)) rows
  else take (Z.to_nat n) rows.

Definition lookup (store : Store) (datasetId : string) : option DatasetType :=
  stored <$> List.find (fun d => String.eqb (id (stored d)) datasetId) (datasets store).

(** The relations whose [near] end is [datasetId], each with the dataset at
    its [far] end. *)
Definition loadRelations (store : Store) (near far : StoredRelation -> string)
    (datasetId : string) : list DatasetRelation :=
  omap (fun r =>
          if String.eqb (near r) datasetId then
            (fun d => {| relationType := storedType r;
                         relationDescription := storedDescription r;
                         included := d |}) <$> lookup store (far r)
          else None)
       (relations store).

Definition countRelations (store : Store) (near : StoredRelation -> string)
    (datasetId : string) : Z :=
  Z.of_nat (length (List.filter (fun r => String.eqb (near r) datasetId) (relations store))).

Definition rowsWhere (store : Store) (p : StoredDataset -> bool) (n : Z) : list DatasetType :=
  takeRows n (map stored (List.filter p (datasets store))).

Definition client (store : Store) : PrismaClient := {|
  findUnique datasetId :=
    Ok ((fun d => {| current := d;
                     relatedFrom := loadRelations store fromId toId datasetId;
                     relatedTo := loadRelations store toId fromId datasetId |})
          <$> lookup store datasetId);
  findManyInDomainExcept datasetId domainName n :=
    Ok (rowsWhere store
          (fun d => negb (String.eqb (id (stored d)) datasetId) &&
                    contains (domains (stored d)) domainName) n);
  findManyOfAgencyExcept datasetId agency n :=
    Ok (rowsWhere store
          (fun d => negb (String.eqb (id (stored d)) datasetId) &&
                    String.eqb (agencyId (stored d)) agency) n);
  findManyInDomain domainName n :=
    Ok (rowsWhere store (fun d => contains (domains (stored d)) domainName) n);
  findManyWithKeywords words n :=
    Ok (rowsWhere store
          (fun d => existsb (fun word => contains (keywords (stored d)) word) words) n);
  findManyApiAccessible n :=
    Ok (rowsWhere store
          (fun d => String.eqb (accessibility (stored d)) "api" &&
                    match apiEndpoint d with Some _ => true | None => false end) n);
  findManyRecentlyUpdated n :=
    Ok (takeRows n
          (map (fun d =>
                  {| counted := stored d;
                     countRelatedFrom := countRelations store fromId (id (stored d));
                     countRelatedTo := countRelations store toId (id (stored d)) |})
               (sortZ (fun a b => updatedAt b - updatedAt a) (datasets store))))
|}.

(** Three datasets in the manner of the seed script: the labour force survey
    feeds into the aged care workforce collection, and a census table of the
    same agency stands alone and was updated last. *)
Definition mkDataset (datasetId title text : string) (keywordList domainList : list string)
    (tagNames : list string) (agencyCode access : string) : DatasetType :=
  {| id := datasetId;
     name := title;
     description := text;
     keywords := JsonText.stringify keywordList;
     domains := JsonText.stringify domainList;
     tags := map (fun n => {| tagName := n |}) tagNames;
     agencyId := agencyCode;
     agency := {| agencyName := agencyCode |};
     accessibility := access |}.

Definition labourForce : DatasetType :=
  mkDataset "lf" "Labour Force, Australia" "Monthly labour force statistics"
            ["employment"; "unemployment"; "labour force"] ["labour"]
            ["labour-market"; "workforce"] "ABS" "api".

Definition agedCareWorkforce : DatasetType :=
  mkDataset "acw" "Aged Care Workforce" "Census of the aged care workforce"
            ["aged care"; "workforce"; "nursing"] ["health"; "ageing"; "labour"]
            ["aged-care"; "workforce"] "AIHW" "public".

Definition census : DatasetType :=
  mkDataset "census" "Census of Population and Housing" "Five-yearly census"
            ["population"; "demographic"] ["population"]
            ["population"] "ABS" "public".

Definition seedStore : Store := {|
  datasets := [
    {| stored := labourForce; apiEndpoint := Some "https://api.example/lf"; updatedAt := 3 |};
    {| stored := agedCareWorkforce; apiEndpoint := None; updatedAt := 2 |};
    {| stored := census; apiEndpoint := None; updatedAt := 4 |}
  ];
  relations := [
    {| fromId := "lf"; toId := "acw"; storedType := "feeds-into";
       storedDescription := Some "Labour force data provides context" |}
  ]
|}.

End MemoryStore.



(* ================================================================== *)
(** * The statements of the specification, and notions to state facts *)
(* ================================================================== *)

(** Definitions written after the words of the specification, to be compared
    with the ones from the sources. *)
Module Stated.
Import JS Schema.

(** Two strings match by mutual containment when either contains the
    other. *)
Definition mutualContainment (a b : string) : bool := includes a b || includes b a.

(** The score of a domain: the number of extracted keywords that are a
    substring of, or contain, one of the domain's terms, plus 2 if the domain
    name appears in the normalized text. *)
Definition statedDomainScore (query : string) (keywords : list string)
    (domain : string) (terms : list string) : Z :=
  Z.of_nat (length (List.filter
                      (fun keyword =>
                         existsb (fun term => includes term keyword || includes keyword term)
                                 terms)
                      keywords))
  + (if includes query domain then 2 else 0).

(** The relevance score, for a dataset whose keyword text denotes
    [datasetKeywords]: the keyword term counts the extracted keywords that
    match a dataset keyword by mutual containment. *)
Definition statedRelevanceScore (datasetKeywords : list string)
    (dataset : Search.DatasetWithAgency) (query : string) (extracted : list string) : Z :=
  (if includes (toLowerCase (Search.name dataset)) (toLowerCase query) then 100 else 0)
  + (if includes (toLowerCase (Search.description dataset)) (toLowerCase query)
     then 50 else 0)
  + 25 * Z.of_nat (length (List.filter
                             (fun word =>
                                existsb (fun keyword =>
                                           mutualContainment (toLowerCase keyword) word)
                                        datasetKeywords)
                             extracted))
  + 20 * Z.of_nat (length (List.filter
                             (fun tag => includes (toLowerCase (tagName tag))
                                                  (toLowerCase query))
                             (Search.tags dataset)))
  + 10 * (Z.of_nat (length (Search.relatedFrom dataset))
          + Z.of_nat (length (Search.relatedTo dataset))).

End Stated.

Module Notions.
Import JS Schema.

(** [a] may stand before [b] in a list sorted with the test [before]. *)
Definition inOrder {A : Type} (before : A -> A -> bool) (a b : A) : Prop :=
  before b a = false.

(** Runs the bind of [result] on a constructor. *)
Ltac run_bind := unfold mbind, mret, result_bind, result_ret; simpl.

(** ** The interpreter *)

(** The entries of a domain table with their scores, in table order. *)
Definition scored (query : string) (keywords : list string)
    (table : list (string * list string)) : list (string * Z) :=
  map (fun entry =>
         (fst entry, Nlp.domainScore query keywords (fst entry) (snd entry)))
      table.

Definition positive (entry : string * Z) : bool := 0 <? snd entry.

(** The comparator of [detectDomains], as a test. *)
Definition higherFirst (a b : string * Z) : bool :=
  (let '(_, a) := a in fun '(_, b) => b - a) b <? 0.

(** ** The scorer *)

(** A search term is matched by a list of dataset keywords when one of them,
    in lower case, contains it: the test of [calculateRelevanceScore]. *)
Definition matchedBy (datasetKeywords : list string) (term : string) : bool :=
  existsb (fun keyword => includes (toLowerCase keyword) term) datasetKeywords.

(** The dataset with another keyword text, all else equal. *)
Definition withKeywords (dataset : Search.DatasetWithAgency) (text : string)
  : Search.DatasetWithAgency :=
  {| Search.id := Search.id dataset;
     Search.name := Search.name dataset;
     Search.description := Search.description dataset;
     Search.keywords := text;
     Search.tags := Search.tags dataset;
     Search.agency := Search.agency dataset;
     Search.relatedFrom := Search.relatedFrom dataset;
     Search.relatedTo := Search.relatedTo dataset |}.

(** ** The recommendation engine *)
Import Recommendations.


(** The recommendation pushed for one direct relation. *)
Definition directRecommendation (JSON_parse : jsonParser) (r : DatasetRelation)
  : DatasetRecommendation :=
  {| dataset :=
       {| row := included r;
          keywordList := parseOrEmptyGuarded JSON_parse (keywords (included r));
          domainList := parseOrEmptyGuarded JSON_parse (domains (included r)) |};
     score := 1.0%Q;
     reason := relationType r +:+ ": " +:+
               match relationDescription r with
               | Some text => if decide (text = "") then "Direct relationship" else text
               | None => "Direct relationship"
               end;
     type := TypeRelated |}.

(** The dataset a recommendation is about. *)
Definition recommendedId (rec : DatasetRecommendation) : string := id (row (dataset rec)).

(** The first recommendation of every dataset, given the ids seen before. *)
Fixpoint keepFirst (seen : list string) (recs : list DatasetRecommendation)
  : list DatasetRecommendation :=
  match recs with
  | [] => []
  | rec :: rest =>
      if arrayIncludes seen (recommendedId rec) then keepFirst seen rest
      else rec :: keepFirst (recommendedId rec :: seen) rest
  end.

(** The comparator of the merge, as a test. *)
Definition higherScoreFirst (a b : DatasetRecommendation) : bool :=
  Qnum (byScoreDescending a b) <? 0.

(** The datasets among the candidates of a merge. *)
Definition candidateIds (candidates : list DatasetRecommendation) : gset string :=
  list_to_set (map recommendedId candidates).

(** [final] is a merge of [candidates] without the datasets [excluded]: it
    holds no dataset twice; it is sorted by falling score; under a limit that
    is not negative it holds as many recommendations as there are datasets
    among the candidates that are not excluded, and no more than the limit;
    and each of its recommendations is about a dataset that is not excluded
    and is the first one of that dataset in [candidates]. *)
Definition mergedFrom (candidates : list DatasetRecommendation) (excluded : list string)
    (limit : Z) (final : list DatasetRecommendation) : Prop :=
  NoDup (map recommendedId final) /\
  StronglySorted (fun a b => (score b <= score a)%Q) final /\
  (0 <= limit ->
   Z.of_nat (length final) =
   Z.min limit (Z.of_nat (size ((candidateIds candidates) ∖ (list_to_set excluded))))) /\
  (forall rec, rec ∈ final ->
     (recommendedId rec ∉ excluded) /\
     exists front back,
       candidates = front ++ rec :: back /\
       forall earlier, earlier ∈ front -> recommendedId earlier <> recommendedId rec).

(** The dataset ids, scores and types of an answer, [None] for an
    exception. *)
Definition answeredIds (answer : result (list DatasetRecommendation)) : option (list string) :=
  match answer with
  | Ok recs => Some (map recommendedId recs)
  | Throw _ => None
  end.

Definition answeredScores (answer : result (list DatasetRecommendation)) : option (list Q) :=
  match answer with
  | Ok recs => Some (map score recs)
  | Throw _ => None
  end.


End Notions.

(** Inputs of the worked examples. *)
Module Examples.
Import JS Schema Notions.

(** The labour force survey as the search handler reads it, with a given
    keyword list. *)
Definition labourForceRow (keywordList : list string) : Search.DatasetWithAgency :=
  {| Search.id := "lf";
     Search.name := "Labour Force, Australia";
     Search.description := "Monthly labour force statistics";
     Search.keywords := JsonText.stringify keywordList;
     Search.tags := [ {| tagName := "labour-market" |} ];
     Search.agency := {| agencyName := "Australian Bureau of Statistics" |};
     Search.relatedFrom := [];
     Search.relatedTo := [] |}.

(** The same row with a keyword text that is no JSON. *)
Definition malformedRow : Search.DatasetWithAgency :=
  withKeywords (labourForceRow []) "employment, wages".


Import Recommendations MemoryStore.

(** What [findUnique] answers for the labour force survey and for the
    census. *)
Definition labourForceFound : CurrentDataset :=
  {| current := labourForce;
     relatedFrom := [ {| relationType := "feeds-into";
                         relationDescription := Some "Labour force data provides context";
                         included := agedCareWorkforce |} ];
     relatedTo := [] |}.


Definition searchContext : RecommendationContext :=
  {| currentDataset := None;
     searchQuery := Some "workforce";
     contextDomains := Some ["labour"];
     contextKeywords := Some ["workforce"];
     userHistory := None |}.

(** The answers of the engine over the seed store, evaluated. *)
Definition seedSearchAnswer : list DatasetRecommendation :=
  Eval vm_compute in
    match getSearchRecommendations JsonText.parse (client seedStore) searchContext None with
    | Ok recs => recs
    | Throw _ => []
    end.

Definition seedDomainCandidates : list DatasetRecommendation :=
  Eval vm_compute in
    match domainRecommendations JsonText.parse (client seedStore) "lf" labourForceFound [] with
    | Ok recs => recs
    | Throw _ => []
    end.


Definition seedComplementary : list DatasetRecommendation :=
  Eval vm_compute in
    match getComplementaryDatasets JsonText.parse (client seedStore) ["lf"; "acw"] with
    | Ok recs => recs
    | Throw _ => []
    end.

End Examples.

(* ================================================================== *)
(** * Notions to state facts about text and patterns *)
(* ================================================================== *)

Module TextNotions.
Import JS.

(** Every character of [s] passes the test [p]. *)
Fixpoint allChars (p : ascii -> bool) (s : string) : bool :=
  match s with
  | EmptyString => true
  | String c r => p c && allChars p r
  end.

(** [b] is [a] character by character, under the [i] flag up to case. *)
Fixpoint sameText (icase : bool) (a b : string) : bool :=
  match a, b with
  | EmptyString, EmptyString => true
  | String x a', String y b' => sameChar icase x y && sameText icase a' b'
  | _, _ => false
  end.

(** The texts a pattern can match, whatever stands around them. *)
Fixpoint denotes (icase : bool) (r : regex) (m : string) : Prop :=
  match r with
  | Lit lit => sameText icase lit m = true
  | Digit => exists d, isDigit d = true /\ m = String d EmptyString
  | AnyStar => allChars (fun c => negb (isLineTerminator c)) m = true
  | WordBoundary => m = EmptyString
  | Seq r1 r2 => exists m1 m2, m = m1 +:+ m2 /\ denotes icase r1 m1 /\ denotes icase r2 m2
  | Alt r1 r2 => denotes icase r1 m \/ denotes icase r2 m
  end.

(** [part] occurs in [text] between [before] and [after]. *)
Definition occursIn (text part : string) : Prop :=
  exists before after, text = before +:+ part +:+ after.

(** A text that does not begin with white space. *)
Definition startsClean (s : string) : Prop :=
  match s with EmptyString => True | String c _ => isSpace c = false end.

End TextNotions.

Module InterpreterNotions.
Import JS Nlp.

(** The terms [getRelatedTerms] takes from a detected domain: the first three
    of its table. *)
Definition domainTerms (domain : string) : list string :=
  slice0 (default [] (objectGet DOMAIN_KEYWORDS domain)) 3.

(** The synonyms [getRelatedTerms] adds for a keyword: those of every entry
    whose key contains the keyword or is contained in it. *)
Definition synonymsFor (keyword : string) : list string :=
  concat (map (fun entry =>
                 if includes keyword (fst entry) || includes (fst entry) keyword
                 then snd entry else [])
              synonyms).

(** The suggestions [generateSuggestions] adds for a detected domain. *)
Definition domainSuggestions (query domain : string) : list string :=
  if String.eqb domain "labour" then
    [query +:+ " by state"; query +:+ " trends";
     query +:+ " by age group"; query +:+ " and skills"]
  else if String.eqb domain "health" then
    [query +:+ " by region"; query +:+ " statistics"; query +:+ " and demographics"]
  else if String.eqb domain "housing" then
    [query +:+ " affordability"; query +:+ " by location"; query +:+ " and income"]
  else [].

(** An entity that the year pattern matched: 2010 to 2029. *)
Definition isYear (entity : string) : Prop :=
  exists d, isDigit d = true /\
            (entity = "201" +:+ String d "" \/ entity = "202" +:+ String d "").

End InterpreterNotions.

(* ================================================================== *)
(** * The search handler as a whole, [src/app/api/search/route.ts] *)
(* ================================================================== *)

Module SearchHandler.
Import JS Schema Search.

(** One element of the array [OR] of [SearchWhereConditions]. *)
Inductive OrCondition : Type :=
| NameContains (text : string)            (* { name: { contains } } *)
| DescriptionContains (text : string)     (* { description: { contains } } *)
| KeywordsContains (text : string)        (* { keywords: { contains } } *)
| TagsSomeNameContains (text : string)    (* { tags: { some: { name: { contains } } } } *)
| DomainsContains (text : string).        (* { domains: { contains } } *)

Record SearchWhereConditions : Type := {
  OR : list OrCondition;
  (** [domains?: { contains }] *)
  whereDomains : option string;
  (** [agency?: { code }] *)
  whereAgency : option string
}.

(** A row of [prisma.dataset.findMany]: the fields [DatasetWithAgency] names
    and the domain text, which the handler parses as well. *)
Record FoundDataset : Type := {
  found : DatasetWithAgency;
  domains : string
}.

(** [{ ...dataset, keywords, domains, relevanceScore }] *)
Record ProcessedDataset : Type := {
  source : FoundDataset;
  keywordList : list string;
  domainList : list string;
  relevanceScore : Z
}.

(** The body of the answer with status 200. *)
Record SearchResults : Type := {
  query : string;
  results : list ProcessedDataset;
  total : Z;
  nlp : Interpretation
}.

Inductive Response : Type :=
| BadRequest (error : string)        (* status 400 *)
| InternalError (error : string)     (* status 500 *)
| Found (body : SearchResults).      (* status 200 *)

(** The two calls the handler makes on the store.  Reading leaves the store
    as it is; a write answers the store it leaves behind, and a rejected
    write leaves none. *)
Record PrismaClient (Store : Type) : Type := {
  (** [dataset.findMany({ where, include, orderBy: { updatedAt: 'desc' }, take })] *)
  findMany : SearchWhereConditions -> Z -> Store -> result (list FoundDataset);
  (** [searchQuery.create({ data: { query, results } })] *)
  createSearchQuery : string -> Z -> Store -> result Store
}.
Arguments findMany {Store} _ _ _ _.
Arguments createSearchQuery {Store} _ _ _ _.

(** A parameter as [if (param)] reads it: [null] and the empty string are
    falsy. *)
Definition truthy (param : option string) : option string :=
  match param with
  | Some text => if String.eqb text EmptyString then None else Some text
  | None => None
  end.

(** The conditions [GET] builds between its guarded call of the interpreter
    and its query of the store. *)
Definition whereConditionsFor (query : string) (processedQuery : Nlp.ProcessedQuery)
    (domain agency : option string) : SearchWhereConditions :=
  let orConditions := [] in
  let orConditions := orConditions ++ [NameContains query] in
  let orConditions := orConditions ++ [DescriptionContains query] in
  let orConditions :=
    fold_left (fun orConditions term => orConditions ++ [KeywordsContains term])
              (Nlp.keywords processedQuery) orConditions in
  let orConditions :=
    fold_left (fun orConditions term => orConditions ++ [TagsSomeNameContains term])
              (Nlp.keywords processedQuery) orConditions in
  let orConditions :=
    if (0 <? length (Nlp.domains processedQuery))%nat then
      fold_left (fun orConditions domainName => orConditions ++ [DomainsContains domainName])
                (Nlp.domains processedQuery) orConditions
    else orConditions in
  {| OR := orConditions;
     whereDomains := truthy domain;
     whereAgency := truthy agency |}.

Section Handler.
Variable JSON_parse : jsonParser.
Context {Store : Type}.
Variable prisma : PrismaClient Store.

(** The callback of [datasets.map]: the row with its JSON fields parsed and
    its score, or the row with empty lists and the score 1 when anything in
    the [try] block throws. *)
Definition processDataset (query : string) (processedQuery : Nlp.ProcessedQuery)
    (dataset : FoundDataset) : ProcessedDataset :=
  tryCatch
    (keywords ← parseOrEmpty JSON_parse (keywords (found dataset));
     domainNames ← parseOrEmpty JSON_parse (domains dataset);
     relevanceScore ←
       calculateRelevanceScore JSON_parse (found dataset) query
                               (Nlp.keywords processedQuery);
     mret {| source := dataset;
             keywordList := keywords;
             domainList := domainNames;
             relevanceScore := relevanceScore |})
    (fun parseError =>
       {| source := dataset;
          keywordList := [];
          domainList := [];
          relevanceScore := 1 |}).

(** [GET] for the parameters [q], [domain] and [agency], each [None] when
    the request does not carry it. *)
Definition GET (q domain agency : option string) (store : Store) : Response * Store :=
  match truthy q with
  | None => (BadRequest "Query parameter is required", store)
  | Some query =>
      tryCatch
        (let interpretation := interpret query in
         let processedQuery := processedQuery interpretation in
         let whereConditions := whereConditionsFor query processedQuery domain agency in
         datasets ← findMany prisma whereConditions 20 store;
         let processedDatasets := map (processDataset query processedQuery) datasets in
         let processedDatasets :=
           sortZ (fun a b => relevanceScore b - relevanceScore a) processedDatasets in
         store ← createSearchQuery prisma query (Z.of_nat (length processedDatasets)) store;
         mret (Found {| query := query;
                        results := processedDatasets;
                        total := Z.of_nat (length processedDatasets);
                        nlp := interpretation |},
               store))
        (fun error => (InternalError "Internal server error", store))
  end.
End Handler.

(** The comparator of the handler's sort, as a test. *)
Definition moreRelevantFirst (a b : ProcessedDataset) : bool :=
  relevanceScore b - relevanceScore a <? 0.

(** What it means that [GET] answered the search [q] with [body] and left
    the store [store']: the query was not empty; the store answered the
    conditions built for it with [rows]; the results are the processed rows,
    sorted by falling relevance score, rows of equal score in the order of the
    store; the total is their number; and the search was logged with that
    total. *)
Definition rankedAnswer {Store : Type} (JSON_parse : jsonParser) (prisma : PrismaClient Store)
    (q domain agency : option string) (store : Store)
    (body : SearchResults) (store' : Store) : Prop :=
  exists text rows,
    q = Some text /\ text <> EmptyString /\
    query body = text /\
    nlp body = interpret text /\
    let processedQuery := processedQuery (interpret text) in
    let processed := map (processDataset JSON_parse text processedQuery) rows in
    findMany prisma (whereConditionsFor text processedQuery domain agency) 20 store = Ok rows /\
    results body ≡ₚ processed /\
    StronglySorted (fun a b => relevanceScore b <= relevanceScore a) (results body) /\
    (forall a b, [a; b] `sublist_of` processed -> relevanceScore b <= relevanceScore a ->
                 [a; b] `sublist_of` results body) /\
    total body = Z.of_nat (length rows) /\
    createSearchQuery prisma text (total body) store = Ok store'.

(** A store in memory for the worked examples.  It answers [findMany] the
    way the SQLite store of the repository does: [contains] is containment
    without regard to ASCII case, the rows come by falling [updatedAt]. *)
Record StoredRow : Type := {
  stored : FoundDataset;
  agencyCode : string;
  updatedAt : Z
}.

Record MemoryStore : Type := {
  rows : list StoredRow;
  searchLog : list (string * Z)
}.

Definition contains (text part : string) : bool :=
  includes (toLowerCase text) (toLowerCase part).

Definition satisfies (row : StoredRow) (condition : OrCondition) : bool :=
  match condition with
  | NameContains text => contains (name (found (stored row))) text
  | DescriptionContains text => contains (description (found (stored row))) text
  | KeywordsContains text => contains (keywords (found (stored row))) text
  | TagsSomeNameContains text =>
      existsb (fun tag => contains (tagName tag) text) (tags (found (stored row)))
  | DomainsContains text => contains (domains (stored row)) text
  end.

Definition selected (whereConditions : SearchWhereConditions) (row : StoredRow) : bool :=
  existsb (satisfies row) (OR whereConditions) &&
  match whereDomains whereConditions with
  | Some text => contains (domains (stored row)) text
  | None => true
  end &&
  match whereAgency whereConditions with
  | Some code => String.eqb (agencyCode row) code
  | None => true
  end.

Definition memoryClient : PrismaClient MemoryStore := {|
  findMany whereConditions n store :=
    Ok (map stored
          (take (Z.to_nat n)
                (sortZ (fun a b => updatedAt b - updatedAt a)
                       (List.filter (selected whereConditions) (rows store)))));
  createSearchQuery query n store :=
    Ok {| rows := rows store; searchLog := searchLog store ++ [(query, n)] |}
|}.

(** Three rows: the labour force survey, a wages table whose keyword text is
    no JSON, and a table on the labour market that no relation touches. *)
Definition mkRow (datasetId title text keywordText domainText : string)
    (relations : nat) (updated : Z) : StoredRow :=
  {| stored :=
       {| found :=
            {| Search.id := datasetId;
               name := title;
               description := text;
               keywords := keywordText;
               tags := [];
               agency := {| agencyName := "Australian Bureau of Statistics" |};
               relatedFrom := repeat {| relationId := "r" |} relations;
               relatedTo := [] |};
          domains := domainText |};
     agencyCode := "ABS";
     updatedAt := updated |}.

Definition exampleStore : MemoryStore := {|
  rows := [
    mkRow "participation" "Participation" "Labour force participation by age"
          (JsonText.stringify ["participation"]) (JsonText.stringify ["labour"]) 0 3;
    mkRow "wages" "Wage Price Index" "Quarterly wages of the labour force"
          "wages, labour" (JsonText.stringify ["labour"]) 0 2;
    mkRow "lf" "Labour Force, Australia" "Monthly labour force statistics"
          (JsonText.stringify ["employment"; "labour force"]) (JsonText.stringify ["labour"]) 1 1
  ];
  searchLog := []
|}.

Definition exampleResponse : Response * MemoryStore :=
  Eval vm_compute in GET JsonText.parse memoryClient (Some "labour force") None None exampleStore.

Definition exampleBody : SearchResults :=
  Eval vm_compute in
    match fst exampleResponse with
    | Found body => body
    | _ => {| query := ""; results := []; total := 0; nlp := interpret "" |}
    end.

End SearchHandler.

(* ================================================================== *)
(** * The recommendations handler, [src/app/api/recommendations/route.ts] *)
(* ================================================================== *)

Module RecommendationsRoute.
Import JS Schema Recommendations.

(** An element of the array [recommendations] of the answer: a
    recommendation of the engine as it is, or, for the type [trending], the
    object the handler builds around one. *)
Inductive Entry : Type :=
| Plain (recommendation : DatasetRecommendation)
| Wrapped (dataset : DatasetRecommendation) (score : Q) (reason : string) (type : string).

(** The body of the answer with status 200. *)
Record Recommended : Type := {
  answeredType : string;
  recommendations : list Entry;
  total : Z
}.

Inductive Response : Type :=
| BadRequest (error : string)        (* status 400 *)
| InternalError (error : string)     (* status 500 *)
| Answered (body : Recommended).     (* status 200 *)

(** [searchParams.get(name)?.split(',')] *)
Definition splitAtCommas (param : option string) : option (list string) :=
  splitChar "," <$> param.

(** [text || undefined] *)
Definition orUndefined (param : option string) : option string :=
  match param with
  | Some text => if String.eqb text EmptyString then None else Some text
  | None => None
  end.

Section Handler.
Variable JSON_parse : jsonParser.
Variable prisma : PrismaClient.

Definition answer (type : string) (recommendations : list Entry) : Response :=
  Answered {| answeredType := type;
              recommendations := recommendations;
              total := Z.of_nat (length recommendations) |}.

(** [GET] for the parameters of the request, each [None] when the request
    does not carry it; [limit] is the integer that [parseInt] reads from the
    parameter [limit], 5 when there is none or it is empty (a parameter that
    holds no number is not covered). *)
Definition GET (type datasetId query domains keywords datasetIds : option string)
    (limit : Z) : Response :=
  let domains := splitAtCommas domains in
  let keywords := splitAtCommas keywords in
  let datasetIds := splitAtCommas datasetIds in
  tryCatch
    (match type with
     | Some type =>
         (* [switch (type)] *)
         if String.eqb type "related" then
           match orUndefined datasetId with
           | None =>
               mret (BadRequest "datasetId is required for related recommendations")
           | Some datasetId =>
               recommendations ←
                 getRelatedRecommendations JSON_parse prisma datasetId (Some limit);
               mret (answer type (map Plain recommendations))
           end
         else if String.eqb type "search" then
           recommendations ←
             getSearchRecommendations JSON_parse prisma
               {| currentDataset := None;
                  searchQuery := orUndefined query;
                  contextDomains := domains;
                  contextKeywords := keywords;
                  userHistory := None |}
               (Some limit);
           mret (answer type (map Plain recommendations))
         else if String.eqb type "trending" then
           trending ← getTrendingDatasets JSON_parse prisma (Some limit);
           (* no element of [trending] has a field [trendScore], so
              [dataset.trendScore || 0.5] is 0.5 *)
           mret (answer type
                   (map (fun dataset => Wrapped dataset 0.5%Q "Trending dataset" "trending")
                        trending))
         else if String.eqb type "complementary" then
           match datasetIds with
           | None | Some [] =>
               mret (BadRequest "datasetIds are required for complementary recommendations")
           | Some datasetIds =>
               recommendations ← getComplementaryDatasets JSON_parse prisma datasetIds;
               mret (answer type (map Plain recommendations))
           end
         else mret (BadRequest "Invalid recommendation type")
     | None => mret (BadRequest "Invalid recommendation type")
     end)
    (fun error => InternalError "Internal server error").
End Handler.

(** The score the answer shows for an entry. *)
Definition shownScore (entry : Entry) : Q :=
  match entry with
  | Plain recommendation => score recommendation
  | Wrapped _ score _ _ => score
  end.

(** The recommendation of the engine that an entry holds. *)
Definition held (entry : Entry) : DatasetRecommendation :=
  match entry with
  | Plain recommendation => recommendation
  | Wrapped dataset _ _ _ => dataset
  end.

End RecommendationsRoute.

(** Notions to state more facts about the engine. *)
Module EngineNotions.
Import JS Schema Recommendations.


End EngineNotions.

(** More inputs for worked examples of the engine. *)
Module EngineExamples.
Import JS Schema Recommendations MemoryStore Notions.



(** The answer for the labour force survey over the seed store. *)
Definition seedRelatedAnswer : list DatasetRecommendation :=
  Eval vm_compute in
    match getRelatedRecommendations JsonText.parse (client seedStore) "lf" None with
    | Ok recs => recs
    | Throw _ => []
    end.


End EngineExamples.

(* ================================================================== *)
(** * The page that calls both handlers, [src/components/SearchFilters.tsx] *)
(* ================================================================== *)

Module DataDiscoveryApp.
Import JS.

(** [xs.join(sep)] *)
Fixpoint join (sep : string) (xs : list string) : string :=
  match xs with
  | [] => EmptyString
  | [x] => x
  | x :: rest => x +:+ sep +:+ join sep rest
  end.

(** The parameters [handleSearch] puts in its request for recommendations. *)
Record RecParams : Type := {
  type : string;
  domains : string;
  keywords : string
}.

(** What [handleSearch] asks of [/api/recommendations] once a search has
    answered with the interpretation [processedQuery]: nothing when no domain
    was detected.  [URLSearchParams] is taken to hand the handler the texts it
    was given. *)
Definition recParams (processedQuery : Nlp.ProcessedQuery) : option RecParams :=
  if (0 <? length (Nlp.domains processedQuery))%nat then
    Some {| type := "search";
            domains := join "," (Nlp.domains processedQuery);
            keywords := join "," (Nlp.keywords processedQuery) |}
  else None.

End DataDiscoveryApp.

(* ================================================================== *)
(** * Facts about the runtime *)
(* ================================================================== *)

Module JSFacts.
Import JS Notions.

(** ** Membership, filters and counts *)

Lemma arrayIncludes_elem_of (xs : list string) (x : string) :
  arrayIncludes xs x = true <-> x ∈ xs.
Proof.
  unfold arrayIncludes. rewrite existsb_exists. split.
  - intros (y & Hy & Heq). apply String.eqb_eq in Heq. subst y.
    by apply list_elem_of_In.
  - intros Hx. exists x. split; [by apply list_elem_of_In | apply String.eqb_refl].
Qed.

Lemma uniqueFrom_nil (seen xs : list string) :
  uniqueFrom seen xs = [] <-> forall x, x ∈ xs -> x ∈ seen.
Proof.
  revert seen. induction xs as [|x xs IH]; intros seen; simpl.
  - split; [intros _ y Hy; by apply elem_of_nil in Hy | done].
  - destruct (arrayIncludes seen x) eqn:Hin.
    + apply arrayIncludes_elem_of in Hin. rewrite IH. split.
      * intros H y Hy. apply elem_of_cons in Hy as [->|Hy]; auto.
      * intros H y Hy. apply H. by apply elem_of_cons; right.
    + split; [done|]. intros H.
      assert (x ∈ seen) as Hx by (apply H; apply elem_of_cons; by left).
      apply arrayIncludes_elem_of in Hx. congruence.
Qed.

Lemma unique_nil (xs : list string) : unique xs = [] <-> xs = [].
Proof.
  unfold unique. rewrite uniqueFrom_nil. split.
  - destruct xs as [|x xs]; [done|]. intros H.
    specialize (H x (list_elem_of_here x xs)). by apply elem_of_nil in H.
  - intros -> x Hx. by apply elem_of_nil in Hx.
Qed.


Lemma elem_of_filter_bool {A : Type} (p : A -> bool) (l : list A) (x : A) :
  x ∈ List.filter p l <-> x ∈ l /\ p x = true.
Proof. rewrite !list_elem_of_In. apply filter_In. Qed.

(** A loop that adds [w] for every element that passes a test adds [w] times
    the number of such elements. *)
Lemma fold_left_count {A : Type} (p : A -> bool) (w : Z) (xs : list A) (start : Z) :
  fold_left (fun score x => if p x then score + w else score) xs start =
  start + w * Z.of_nat (length (List.filter p xs)).
Proof.
  revert start. induction xs as [|x xs IH]; intros start; simpl; [lia|].
  rewrite IH. destruct (p x); simpl length; lia.
Qed.

Lemma existsb_insert {A : Type} (f : A -> bool) (l1 l2 : list A) (x : A) :
  existsb f (l1 ++ x :: l2) = existsb f (l1 ++ l2) || f x.
Proof.
  rewrite !existsb_app. simpl. destruct (existsb f l1), (f x), (existsb f l2); done.
Qed.

Lemma count_orb {A : Type} (p q : A -> bool) (xs : list A) :
  length (List.filter (fun x => p x || q x) xs) =
  (length (List.filter p xs) + length (List.filter (fun x => q x && negb (p x)) xs))%nat.
Proof.
  induction xs as [|x xs IH]; simpl; [done|].
  destruct (p x), (q x); simpl; lia.
Qed.

(** ** Lists that keep the order of another list *)

Lemma sublist_map {A B : Type} (f : A -> B) (l1 l2 : list A) :
  l1 `sublist_of` l2 -> map f l1 `sublist_of` map f l2.
Proof.
  induction 1; simpl; [constructor|by apply sublist_skip|by apply sublist_cons].
Qed.

Lemma filter_bool_sublist {A : Type} (p : A -> bool) (l : list A) :
  List.filter p l `sublist_of` l.
Proof.
  induction l as [|x l IH]; simpl; [done|].
  destruct (p x); [by apply sublist_skip|by apply sublist_cons].
Qed.

Lemma sublist_filter_bool {A : Type} (p : A -> bool) (l1 l2 : list A) :
  l1 `sublist_of` l2 -> List.filter p l1 `sublist_of` List.filter p l2.
Proof.
  induction 1 as [|x l1 l2 H IH|x l1 l2 H IH]; simpl.
  - constructor.
  - destruct (p x); [by apply sublist_skip|done].
  - destruct (p x); [by apply sublist_cons|done].
Qed.

Lemma sublist_pair_intro {A : Type} (a b : A) (l : list A) :
  b ∈ l -> [a; b] `sublist_of` a :: l.
Proof. intros Hb. apply sublist_skip. by apply singleton_sublist_l. Qed.

Lemma sublist_pair_or {A : Type} (a b : A) (l : list A) :
  a ∈ l -> b ∈ l -> a <> b -> [a; b] `sublist_of` l \/ [b; a] `sublist_of` l.
Proof.
  induction l as [|x l IH]; intros Ha Hb Hne.
  - by apply elem_of_nil in Ha.
  - apply elem_of_cons in Ha as [->|Ha]; apply elem_of_cons in Hb as [->|Hb].
    + done.
    + left. by apply sublist_pair_intro.
    + right. by apply sublist_pair_intro.
    + destruct (IH Ha Hb Hne); [left|right]; by apply sublist_cons.
Qed.

Lemma StronglySorted_pair {A : Type} (R : A -> A -> Prop) (a b : A) (l : list A) :
  StronglySorted R l -> [a; b] `sublist_of` l -> R a b.
Proof.
  induction 1 as [|x l Hl IH Hx]; intros Hab.
  - by apply sublist_nil_r in Hab.
  - apply sublist_cons_r in Hab as [Hab|(l' & Heq & Hl')]; [by apply IH|].
    injection Heq as -> <-.
    rewrite Forall_forall in Hx. apply Hx. by apply singleton_sublist_l.
Qed.

Lemma StronglySorted_sublist {A : Type} (R : A -> A -> Prop) (l1 l2 : list A) :
  l1 `sublist_of` l2 -> StronglySorted R l2 -> StronglySorted R l1.
Proof.
  induction 1 as [|x l1 l2 H IH|x l1 l2 H IH]; intros Hs; [done| |].
  - apply StronglySorted_inv in Hs as [Hs Hx]. constructor; [by apply IH|].
    rewrite Forall_forall in *. intros y Hy. apply Hx. by eapply elem_of_sublist.
  - apply StronglySorted_inv in Hs as [Hs _]. by apply IH.
Qed.

(** ** [slice], [findIndex] and [filter] with an index *)

Lemma slice0_sublist {A : Type} (xs : list A) (stop : Z) : slice0 xs stop `sublist_of` xs.
Proof. apply sublist_take. Qed.

Lemma slice0_length {A : Type} (xs : list A) (stop : Z) :
  0 <= stop -> Z.of_nat (length (slice0 xs stop)) = Z.min stop (Z.of_nat (length xs)).
Proof.
  intros Hstop. unfold slice0. rewrite length_take.
  destruct (stop <? 0) eqn:Hneg; lia.
Qed.

Lemma findIndexFrom_first {A : Type} (p : A -> bool) (front : list A) (x : A)
    (back : list A) (i : Z) :
  p x = true -> (forall y, y ∈ front -> p y = false) ->
  findIndexFrom p i (front ++ x :: back) = i + Z.of_nat (length front).
Proof.
  revert i. induction front as [|y front IH]; intros i Hx Hfront; simpl.
  - rewrite Hx. lia.
  - rewrite (Hfront y) by (apply elem_of_cons; by left).
    rewrite IH; [lia|done|]. intros z Hz. apply Hfront. apply elem_of_cons; by right.
Qed.

Lemma findIndexFrom_earlier {A : Type} (p : A -> bool) (front back : list A) (i : Z) :
  (exists y, y ∈ front /\ p y = true) ->
  i <= findIndexFrom p i (front ++ back) < i + Z.of_nat (length front).
Proof.
  revert i. induction front as [|y front IH]; intros i (z & Hz & Hpz).
  - by apply elem_of_nil in Hz.
  - simpl. destruct (p y) eqn:Hy; [lia|].
    apply elem_of_cons in Hz as [->|Hz]; [congruence|].
    specialize (IH (i + 1)). destruct IH as [H1 H2]; [eauto|]. lia.
Qed.

Lemma filterIndexedFrom_and {A : Type} (a : A -> Z -> bool) (k : A -> bool) i xs :
  filterIndexedFrom (fun x index => a x index && k x) i xs =
  List.filter k (filterIndexedFrom a i xs).
Proof.
  revert i. induction xs as [|x xs IH]; intros i; simpl; [done|].
  destruct (a x i); simpl; [|by apply IH].
  destruct (k x); by rewrite IH.
Qed.

Lemma filterIndexedFrom_ext {A : Type} (p q : A -> Z -> bool) i xs :
  (forall x j, p x j = q x j) -> filterIndexedFrom p i xs = filterIndexedFrom q i xs.
Proof.
  intros Hext. revert i. induction xs as [|x xs IH]; intros i; simpl; [done|].
  by rewrite Hext, IH.
Qed.

(** ** [Math.min] *)





(** ** The stable sort *)

Section SortFacts.
Context {A : Type} (before : A -> A -> bool).

Lemma insertSorted_perm x l : insertSorted before x l ≡ₚ x :: l.
Proof.
  induction l as [|y l IH]; simpl; [done|].
  destruct (before y x); [|done].
  rewrite IH. apply Permutation_swap.
Qed.

Lemma sortBy_perm l : sortBy before l ≡ₚ l.
Proof.
  induction l as [|x l IH]; simpl; [done|].
  by rewrite insertSorted_perm, IH.
Qed.

Lemma insertSorted_sublist x l : l `sublist_of` insertSorted before x l.
Proof.
  induction l as [|y l IH]; simpl.
  - apply sublist_nil_l.
  - destruct (before y x).
    + by apply sublist_skip.
    + by apply sublist_cons.
Qed.

(** The element inserted lands before every element it is not to follow. *)
Lemma insertSorted_before x b l :
  b ∈ l -> before b x = false -> [x; b] `sublist_of` insertSorted before x l.
Proof.
  induction l as [|y l IH]; intros Hb Hbx; simpl.
  - by apply elem_of_nil in Hb.
  - destruct (before y x) eqn:Hyx.
    + apply sublist_cons, IH; [|done].
      apply elem_of_cons in Hb as [->|Hb]; [congruence|done].
    + by apply sublist_pair_intro.
Qed.

(** Stability: two elements keep their order unless the comparator puts the
    second before the first. *)
Lemma sortBy_stable a b l :
  [a; b] `sublist_of` l -> before b a = false ->
  [a; b] `sublist_of` sortBy before l.
Proof.
  induction l as [|x l IH]; intros Hab Hba; simpl.
  - by apply sublist_nil_r in Hab.
  - apply sublist_cons_r in Hab as [Hab|(l' & Heq & Hl')].
    + etrans; [by apply IH|]. apply insertSorted_sublist.
    + injection Heq as -> <-.
      apply insertSorted_before; [|done].
      rewrite sortBy_perm. by apply singleton_sublist_l.
Qed.

Hypothesis before_asym : forall a b, before a b = true -> before b a = false.
Hypothesis before_negtrans :
  forall a b c, before a b = false -> before b c = false -> before a c = false.

Lemma insertSorted_sorted x l :
  StronglySorted (inOrder before) l -> StronglySorted (inOrder before) (insertSorted before x l).
Proof.
  induction l as [|y l IH]; intros Hs; simpl.
  - repeat constructor.
  - apply StronglySorted_inv in Hs as [Hl Hy].
    destruct (before y x) eqn:Hyx.
    + constructor; [by apply IH|].
      rewrite Forall_forall. intros z Hz.
      rewrite insertSorted_perm in Hz.
      apply elem_of_cons in Hz as [->|Hz].
      * by apply before_asym.
      * rewrite Forall_forall in Hy. by apply Hy.
    + constructor; [by constructor|].
      constructor; [done|].
      rewrite Forall_forall. intros z Hz.
      rewrite Forall_forall in Hy. specialize (Hy z Hz).
      unfold inOrder in *. by apply (before_negtrans z y x).
Qed.

Lemma sortBy_sorted l : StronglySorted (inOrder before) (sortBy before l).
Proof.
  induction l as [|x l IH]; simpl; [constructor|].
  by apply insertSorted_sorted.
Qed.
End SortFacts.

End JSFacts.

(* ================================================================== *)
(** * Facts about the query interpreter *)
(* ================================================================== *)

Module NlpFacts.
Import JS Nlp Stated Notions JSFacts.

(** ** Keywords and confidence *)






(** ** Domain detection *)

Lemma domainScore_stated query keywords domain terms :
  domainScore query keywords domain terms = statedDomainScore query keywords domain terms.
Proof.
  unfold domainScore, statedDomainScore, matchesDomainKeyword.
  rewrite (fold_left_count _ 1). destruct (includes query domain); lia.
Qed.

(** Setting a key the object does not have appends it. *)
Lemma objectSet_fresh {V : Type} (o : list (string * V)) (k : string) (v : V) :
  k ∉ map fst o -> objectSet o k v = o ++ [(k, v)].
Proof.
  induction o as [|[k' v'] o IH]; intros Hk; simpl; [done|].
  simpl in Hk. apply not_elem_of_cons in Hk as [Hne Hk].
  destruct (String.eqb k' k) eqn:Heq.
  - apply String.eqb_eq in Heq. congruence.
  - by rewrite IH.
Qed.

Lemma collect_from query keywords table acc :
  NoDup (map fst acc ++ map fst table) ->
  fold_left (fun domainScores '(domain, domainKeywords) =>
               let score := domainScore query keywords domain domainKeywords in
               if 0 <? score then objectSet domainScores domain score
               else domainScores)
            table acc
  = acc ++ List.filter positive (scored query keywords table).
Proof.
  revert acc. induction table as [|[d terms] table IH]; intros acc Hnd; simpl.
  - by rewrite app_nil_r.
  - simpl in Hnd. unfold positive at 1. simpl.
    apply NoDup_app in Hnd as (Hacc & Hdisj & Htab).
    apply NoDup_cons in Htab as [Hd Htab].
    destruct (0 <? domainScore query keywords d terms) eqn:Hpos.
    + rewrite objectSet_fresh.
      * rewrite IH; [by rewrite <- app_assoc|].
        rewrite map_app. simpl. rewrite <- app_assoc. simpl.
        apply NoDup_app. split; [done|]. split; [|by apply NoDup_cons].
        intros x Hx. apply Hdisj in Hx. done.
      * intros Hin. apply Hdisj in Hin. apply Hin. apply elem_of_cons; by left.
    + apply IH. apply NoDup_app. split; [done|]. split; [|done].
      intros x Hx Hx'. apply (Hdisj x Hx). apply elem_of_cons; by right.
Qed.

Lemma DOMAIN_KEYWORDS_NoDup : NoDup (map fst DOMAIN_KEYWORDS).
Proof. apply (bool_decide_unpack _). by vm_compute. Qed.

Lemma collectDomainScores_filter query keywords :
  collectDomainScores query keywords =
  List.filter positive (scored query keywords DOMAIN_KEYWORDS).
Proof.
  unfold collectDomainScores. rewrite collect_from; [done|].
  apply DOMAIN_KEYWORDS_NoDup.
Qed.

Lemma higherFirst_spec (a b : string * Z) : higherFirst a b = (snd b <? snd a).
Proof.
  unfold higherFirst. destruct a as [da sa], b as [db sb]. simpl.
  destruct (sb - sa <? 0) eqn:H1, (sb <? sa) eqn:H2; try done; lia.
Qed.

Lemma higherFirst_asym a b : higherFirst a b = true -> higherFirst b a = false.
Proof. rewrite !higherFirst_spec. lia. Qed.

Lemma higherFirst_negtrans a b c :
  higherFirst a b = false -> higherFirst b c = false -> higherFirst a c = false.
Proof. rewrite !higherFirst_spec. lia. Qed.

Lemma detectDomains_sorted query keywords :
  detectDomains query keywords =
  map fst (sortBy higherFirst (List.filter positive (scored query keywords DOMAIN_KEYWORDS))).
Proof.
  unfold detectDomains. rewrite collectDomainScores_filter. reflexivity.
Qed.

Lemma elem_of_scored query keywords table d s :
  (d, s) ∈ scored query keywords table <->
  exists terms, (d, terms) ∈ table /\ s = domainScore query keywords d terms.
Proof.
  unfold scored. rewrite list_elem_of_fmap. split.
  - intros ([d' terms] & Heq & Hin). simpl in Heq. injection Heq as -> ->. eauto.
  - intros (terms & Hin & ->). by exists (d, terms).
Qed.

Section DetectDomains.
Variables (query : string) (keywords : list string).
Local Abbreviation score := (statedDomainScore query keywords).
Local Abbreviation ranked :=
  (sortBy higherFirst (List.filter positive (scored query keywords DOMAIN_KEYWORDS))).

Lemma elem_of_ranked d s :
  (d, s) ∈ ranked <->
  exists terms, (d, terms) ∈ DOMAIN_KEYWORDS /\ s = score d terms /\ 0 < s.
Proof.
  rewrite sortBy_perm, elem_of_filter_bool, elem_of_scored.
  unfold positive. simpl. setoid_rewrite domainScore_stated.
  rewrite Z.ltb_lt. split.
  - intros ((terms & Hin & ->) & Hpos). eauto.
  - intros (terms & Hin & -> & Hpos). eauto.
Qed.

Lemma detectDomains_elem_of d :
  d ∈ detectDomains query keywords <->
  exists terms, (d, terms) ∈ DOMAIN_KEYWORDS /\ 0 < score d terms.
Proof.
  rewrite detectDomains_sorted. rewrite list_elem_of_fmap. split.
  - intros ([d' s] & -> & Hin). apply elem_of_ranked in Hin as (terms & ? & -> & ?).
    eauto.
  - intros (terms & Hin & Hpos). exists (d, score d terms). split; [done|].
    apply elem_of_ranked. eauto.
Qed.

Lemma detectDomains_NoDup : NoDup (detectDomains query keywords).
Proof.
  rewrite detectDomains_sorted. rewrite sortBy_perm.
  apply (sublist_NoDup _ (map fst DOMAIN_KEYWORDS)); [apply DOMAIN_KEYWORDS_NoDup|].
  replace (map fst DOMAIN_KEYWORDS) with (map fst (scored query keywords DOMAIN_KEYWORDS)).
  - apply sublist_map, filter_bool_sublist.
  - unfold scored. rewrite map_map. done.
Qed.

Lemma detectDomains_strict X tx Y ty :
  (X, tx) ∈ DOMAIN_KEYWORDS -> (Y, ty) ∈ DOMAIN_KEYWORDS ->
  0 < score Y ty -> score Y ty < score X tx ->
  [X; Y] `sublist_of` detectDomains query keywords.
Proof.
  intros HX HY Hpos Hlt. rewrite detectDomains_sorted.
  assert ((X, score X tx) ∈ ranked) as HX'
    by (apply elem_of_ranked; exists tx; repeat split; [done|lia]).
  assert ((Y, score Y ty) ∈ ranked) as HY'
    by (apply elem_of_ranked; exists ty; repeat split; done).
  destruct (sublist_pair_or _ _ _ HX' HY') as [H|H].
  - intros Heq. injection Heq as _ Heq. lia.
  - by apply (sublist_map fst) in H.
  - exfalso. eapply (StronglySorted_pair (inOrder higherFirst)) in H.
    + unfold inOrder in H. rewrite higherFirst_spec in H. simpl in H. lia.
    + apply sortBy_sorted; [apply higherFirst_asym|apply higherFirst_negtrans].
Qed.

Lemma detectDomains_ties X tx Y ty :
  [(X, tx); (Y, ty)] `sublist_of` DOMAIN_KEYWORDS ->
  0 < score X tx -> score X tx = score Y ty ->
  [X; Y] `sublist_of` detectDomains query keywords.
Proof.
  intros Hsub Hpos Heq. rewrite detectDomains_sorted.
  apply (sublist_map fst [(X, score X tx); (Y, score Y ty)]).
  apply sortBy_stable.
  - apply (sublist_map
             (fun entry => (fst entry, domainScore query keywords (fst entry) (snd entry))))
      in Hsub.
    change (map _ DOMAIN_KEYWORDS) with (scored query keywords DOMAIN_KEYWORDS) in Hsub.
    revert Hsub. generalize (scored query keywords DOMAIN_KEYWORDS). intros S Hsub.
    apply (sublist_filter_bool positive) in Hsub. simpl in Hsub.
    rewrite !domainScore_stated in Hsub.
    unfold positive in Hsub at 1 2. simpl in Hsub.
    assert ((0 <? score X tx) = true) as HpX by (by apply Z.ltb_lt).
    assert ((0 <? score Y ty) = true) as HpY by (apply Z.ltb_lt; lia).
    rewrite HpX, HpY in Hsub. exact Hsub.
  - rewrite higherFirst_spec. simpl. lia.
Qed.
End DetectDomains.

(** C5. Every one of the seven domains gets the score the specification
    states: the number of extracted keywords that are a substring of, or
    contain, one of its terms, plus 2 if its name appears in the normalized
    text.  The domains returned are exactly those with a positive score,
    each once; a domain with a strictly higher score comes before one with a
    lower score; domains with equal scores come in the order of the domain
    table. *)
Theorem detectDomains_scores_and_order (text : string) :
  let query := trim (toLowerCase text) in
  let keywords := extractKeywords query in
  let result := detectDomains query keywords in
  let score := statedDomainScore query keywords in
  length DOMAIN_KEYWORDS = 7%nat /\
  (forall d terms, domainScore query keywords d terms = score d terms) /\
  (forall d, d ∈ result <-> exists terms, (d, terms) ∈ DOMAIN_KEYWORDS /\ 0 < score d terms) /\
  NoDup result /\
  (forall X tx Y ty,
     (X, tx) ∈ DOMAIN_KEYWORDS -> (Y, ty) ∈ DOMAIN_KEYWORDS ->
     0 < score Y ty -> score Y ty < score X tx -> [X; Y] `sublist_of` result) /\
  (forall X tx Y ty,
     [(X, tx); (Y, ty)] `sublist_of` DOMAIN_KEYWORDS ->
     0 < score X tx -> score X tx = score Y ty -> [X; Y] `sublist_of` result).
Proof.
  intros query keywords result score. split; [done|].
  split; [intros; apply domainScore_stated|].
  split; [apply detectDomains_elem_of|].
  split; [apply detectDomains_NoDup|].
  split; [apply detectDomains_strict|apply detectDomains_ties].
Qed.

(** The first scenario of the specification, evaluated. *)
Example processQuery_aged_care :
  let q := processQuery "aged care workforce trends by region since 2015" in
  keywords q = ["aged"; "care"; "workforce"; "trends"; "region"; "since"; "2015"] /\
  domains q = ["labour"; "health"; "ageing"; "population"] /\
  queryIntent q = trend /\
  entities q = ["2015"].
Proof. by vm_compute. Qed.

End NlpFacts.

(* ================================================================== *)
(** * Facts about the search handler *)
(* ================================================================== *)

Module SearchFacts.
Import JS Schema Search Stated Notions Examples JSFacts.

(** ** The relevance score *)

(** A keyword text that is no JSON array makes the scorer throw. *)
Lemma calculateRelevanceScore_throws JSON_parse dataset query searchTerms :
  JSON_parse (orElse (keywords dataset) "[]") = None ->
  calculateRelevanceScore JSON_parse dataset query searchTerms = Throw SyntaxError.
Proof. intros H. unfold calculateRelevanceScore, parseOrEmpty. by rewrite H. Qed.

Lemma calculateRelevanceScore_throws_witness :
  calculateRelevanceScore JsonText.parse malformedRow "wages" ["wages"] = Throw SyntaxError.
Proof.
  exact (calculateRelevanceScore_throws JsonText.parse malformedRow "wages" ["wages"] eq_refl).
Defined.

(** The value of the score when the keyword text parses, for use below. *)
Lemma relevanceScore_value (JSON_parse : jsonParser)
    (dataset : DatasetWithAgency) (query : string)
    (searchTerms datasetKeywords : list string) :
  JSON_parse (orElse (keywords dataset) "[]") = Some datasetKeywords ->
  calculateRelevanceScore JSON_parse dataset query searchTerms =
  Ok ((if includes (toLowerCase (name dataset)) (toLowerCase query) then 100 else 0)
      + (if includes (toLowerCase (description dataset)) (toLowerCase query) then 50 else 0)
      + 25 * Z.of_nat (length (List.filter (matchedBy datasetKeywords) searchTerms))
      + 20 * Z.of_nat (length (List.filter
                                 (fun tag => includes (toLowerCase (tagName tag))
                                                      (toLowerCase query))
                                 (tags dataset)))
      + 10 * (Z.of_nat (length (relatedFrom dataset))
              + Z.of_nat (length (relatedTo dataset)))).
Proof.
  intros Hparse. unfold calculateRelevanceScore, parseOrEmpty. rewrite Hparse.
  run_bind. f_equal.
  rewrite (fold_left_count _ 20), (fold_left_count _ 25). fold (matchedBy datasetKeywords).
  destruct (includes (toLowerCase (name dataset)) (toLowerCase query));
    destruct (includes (toLowerCase (description dataset)) (toLowerCase query)); lia.
Qed.

(** C1, as the code has it. When the keyword text of the dataset denotes
    the array [datasetKeywords], the score is 100 if the name contains the
    query (without regard to case), plus 50 if the description does, plus 25
    for each search term that some dataset keyword, in lower case, contains,
    plus 20 for each tag whose name contains the query, plus 10 for each
    relation in either direction. *)
Theorem calculateRelevanceScore_formula (JSON_parse : jsonParser)
    (dataset : DatasetWithAgency) (query : string)
    (searchTerms datasetKeywords : list string) :
  JSON_parse (orElse (keywords dataset) "[]") = Some datasetKeywords ->
  calculateRelevanceScore JSON_parse dataset query searchTerms =
  Ok ((if includes (toLowerCase (name dataset)) (toLowerCase query) then 100 else 0)
      + (if includes (toLowerCase (description dataset)) (toLowerCase query) then 50 else 0)
      + 25 * Z.of_nat (length (List.filter (matchedBy datasetKeywords) searchTerms))
      + 20 * Z.of_nat (length (List.filter
                                 (fun tag => includes (toLowerCase (tagName tag))
                                                      (toLowerCase query))
                                 (tags dataset)))
      + 10 * (Z.of_nat (length (relatedFrom dataset))
              + Z.of_nat (length (relatedTo dataset)))).
Proof.
  intros Hparse. unfold calculateRelevanceScore.
  (* the keyword text parses *)
  unfold parseOrEmpty. rewrite Hparse. run_bind. f_equal.
  (* the two loops count the terms and the tags that pass their test *)
  rewrite (fold_left_count _ 20), (fold_left_count _ 25).
  fold (matchedBy datasetKeywords).
  (* the two tests on name and description *)
  destruct (includes (toLowerCase (name dataset)) (toLowerCase query));
    destruct (includes (toLowerCase (description dataset)) (toLowerCase query)); lia.
Qed.

(** The second scenario of the specification: the labour force survey,
    queried with [labour force], scores 200. *)
Lemma calculateRelevanceScore_formula_witness :
  calculateRelevanceScore JsonText.parse (labourForceRow ["employment"; "labour force"])
                          "labour force" ["labour"; "force"] = Ok 200.
Proof.
  exact (calculateRelevanceScore_formula JsonText.parse
           (labourForceRow ["employment"; "labour force"]) "labour force"
           ["labour"; "force"] ["employment"; "labour force"] eq_refl).
Defined.

(** C1, counterexample. For the query [jobs] the interpreter extracts the
    keyword [jobs]; a dataset whose only keyword is [job] scores nothing,
    although [jobs] contains [job] and the stated score is 25. *)
Lemma calculateRelevanceScore_not_mutual :
  Nlp.keywords (Nlp.processQuery "jobs") = ["jobs"] /\
  calculateRelevanceScore JsonText.parse (labourForceRow ["job"]) "jobs" ["jobs"] = Ok 0 /\
  statedRelevanceScore ["job"] (labourForceRow ["job"]) "jobs" ["jobs"] = 25.
Proof. repeat split; vm_compute; reflexivity. Qed.

(** C7, as the code has it. Putting one more keyword into the keyword list
    of a dataset, all else equal, raises the score by 25 for each search term
    that the new keyword contains and that no keyword already in the list
    contains; so the score never falls, and it rises by exactly 25 when
    exactly one search term is newly matched. *)
Theorem adding_keyword_adds_25_per_new_term (JSON_parse : jsonParser)
    (dataset : DatasetWithAgency) (text' query : string)
    (searchTerms front back : list string) (added : string) :
  JSON_parse (orElse (keywords dataset) "[]") = Some (front ++ back) ->
  JSON_parse (orElse text' "[]") = Some (front ++ added :: back) ->
  let newlyMatched :=
    List.filter (fun term => matchedBy [added] term && negb (matchedBy (front ++ back) term))
                searchTerms in
  exists score,
    calculateRelevanceScore JSON_parse dataset query searchTerms = Ok score /\
    calculateRelevanceScore JSON_parse (withKeywords dataset text') query searchTerms
    = Ok (score + 25 * Z.of_nat (length newlyMatched)).
Proof.
  intros Hold Hnew newlyMatched. eexists. split.
  - by apply relevanceScore_value.
  - rewrite (relevanceScore_value _ _ _ _ (front ++ added :: back)); [|done].
    f_equal. simpl.
    assert (length (List.filter (matchedBy (front ++ added :: back)) searchTerms) =
            (length (List.filter (matchedBy (front ++ back)) searchTerms)
             + length newlyMatched)%nat) as ->.
    { unfold newlyMatched. rewrite <- count_orb. f_equal.
      apply filter_ext. intros term. unfold matchedBy.
      rewrite existsb_insert. simpl. by rewrite orb_false_r. }
    lia.
Qed.

(** Adding the keyword [wages] to a dataset that has [employment], for the
    search terms [wages] and [paid]: one term is newly matched. *)
Lemma adding_keyword_witness :
  exists score,
    calculateRelevanceScore JsonText.parse (labourForceRow ["employment"]) "wages paid"
                            ["wages"; "paid"] = Ok score /\
    calculateRelevanceScore JsonText.parse
      (withKeywords (labourForceRow ["employment"]) (JsonText.stringify ["employment"; "wages"]))
      "wages paid" ["wages"; "paid"]
    = Ok (score + 25 * 1).
Proof.
  apply (adding_keyword_adds_25_per_new_term JsonText.parse (labourForceRow ["employment"])
           (JsonText.stringify ["employment"; "wages"]) "wages paid" ["wages"; "paid"]
           ["employment"] [] "wages"); reflexivity.
Defined.

(** C7, counterexample. The keyword [unemployment] matches the search term
    [employ], yet adding it to a dataset that already has the keyword
    [employment] leaves the score at 25. *)
Lemma adding_matching_keyword_may_add_nothing :
  Nlp.keywords (Nlp.processQuery "employ") = ["employ"] /\
  matchedBy ["unemployment"] "employ" = true /\
  calculateRelevanceScore JsonText.parse (labourForceRow ["employment"]) "employ" ["employ"]
  = Ok 25 /\
  calculateRelevanceScore JsonText.parse
    (withKeywords (labourForceRow ["employment"])
                  (JsonText.stringify ["employment"; "unemployment"]))
    "employ" ["employ"]
  = Ok 25.
Proof. repeat split; vm_compute; reflexivity. Qed.

(** ** The guarded call of the interpreter *)



End SearchFacts.

(* ================================================================== *)
(** * Facts about the recommendation engine *)
(* ================================================================== *)

Module RecommendationFacts.
Import JS Schema Recommendations MemoryStore Notions Examples JSFacts.

(** ** Similarity *)







Example calculateSimilarity_seed :
  exists similarity,
    calculateSimilarity JsonText.parse labourForce agedCareWorkforce = Ok similarity /\
    (similarity == 0.55)%Q.
Proof. eexists. split; reflexivity. Qed.

(** ** Direct relations *)

Lemma descriptionOrDefault_cases (description : option string) :
  descriptionOrDefault description =
  match description with
  | Some text => if decide (text = "") then "Direct relationship" else text
  | None => "Direct relationship"
  end.
Proof.
  destruct description as [text|]; [|done]. unfold descriptionOrDefault, orElse.
  destruct (String.eqb text "") eqn:H.
  - apply String.eqb_eq in H. by rewrite decide_True.
  - apply String.eqb_neq in H. by rewrite decide_False.
Qed.

Lemma directRecommendations_map JSON_parse seed :
  directRecommendations JSON_parse seed =
  map (directRecommendation JSON_parse) (relatedFrom seed ++ relatedTo seed).
Proof.
  unfold directRecommendations. rewrite <- map_app, map_map.
  apply map_ext. intros r. unfold directRecommendation.
  by rewrite descriptionOrDefault_cases.
Qed.

(** C8. The direct-relation step emits, in order, one recommendation for
    each relation that leaves the seed and then one for each relation that
    reaches it; each recommends the dataset at the other end with score 1.0,
    type [related] and the reason "kind: description", where the text
    "Direct relationship" stands in for a description that is absent or
    empty.  A seed with one outgoing [feeds-into] relation and no incoming
    one yields exactly one recommendation, whose reason starts with
    "feeds-into:". *)
Theorem directRecommendations_one_per_relation (JSON_parse : jsonParser)
    (seed : CurrentDataset) :
  let emitted := directRecommendations JSON_parse seed in
  let touching := relatedFrom seed ++ relatedTo seed in
  length emitted = length touching /\
  (forall i r, touching !! i = Some r ->
     exists rec, emitted !! i = Some rec /\
       row (dataset rec) = included r /\
       score rec = 1.0%Q /\
       type rec = TypeRelated /\
       reason rec = relationType r +:+ ": " +:+
                    match relationDescription r with
                    | Some text => if decide (text = "") then "Direct relationship" else text
                    | None => "Direct relationship"
                    end) /\
  (forall r, relatedFrom seed = [r] -> relatedTo seed = [] ->
     relationType r = "feeds-into" ->
     exists rec, emitted = [rec] /\ score rec = 1.0%Q /\
                 String.prefix "feeds-into:" (reason rec) = true).
Proof.
  intros emitted touching. unfold emitted. rewrite directRecommendations_map.
  fold touching. split; [by rewrite length_map|]. split.
  - intros i r Hr. exists (directRecommendation JSON_parse r).
    split; [|done]. by rewrite list_lookup_fmap, Hr.
  - intros r Hfrom Hto Hkind. exists (directRecommendation JSON_parse r).
    unfold touching. rewrite Hfrom, Hto. split; [done|]. split; [done|].
    simpl. rewrite Hkind. reflexivity.
Qed.

(** The third scenario of the specification, over the seed store. *)
Lemma directRecommendations_witness :
  findUnique (client seedStore) "lf" = Ok (Some labourForceFound) /\
  exists rec,
    directRecommendations JsonText.parse labourForceFound = [rec] /\
    score rec = 1.0%Q /\
    String.prefix "feeds-into:" (reason rec) = true.
Proof.
  split; [reflexivity|].
  exact (proj2 (proj2 (directRecommendations_one_per_relation JsonText.parse labourForceFound))
           _ eq_refl eq_refl eq_refl).
Defined.

(** ** An id the store does not know *)

(** C10. When the store holds no dataset with the given id, the answer is
    the empty list, whatever the limit, and no exception. *)
Theorem getRelatedRecommendations_unknown_id (JSON_parse : jsonParser)
    (prisma : PrismaClient) (datasetId : string) (limit : option Z) :
  findUnique prisma datasetId = Ok None ->
  getRelatedRecommendations JSON_parse prisma datasetId limit = Ok [].
Proof.
  intros Hnone. unfold getRelatedRecommendations. by rewrite Hnone.
Qed.

Lemma getRelatedRecommendations_unknown_id_witness :
  getRelatedRecommendations JsonText.parse (client seedStore) "no-such-id" (Some 3) = Ok [].
Proof.
  exact (getRelatedRecommendations_unknown_id JsonText.parse (client seedStore)
           "no-such-id" (Some 3) eq_refl).
Defined.

(** ** The domain and the agency step *)

(** What holds before a loop and is kept by every round that does not throw
    holds after the loop. *)
Lemma forEach_invariant {A S : Type} (P : S -> Prop) (xs : list A)
    (body : S -> A -> result S) (s out : S) :
  P s ->
  (forall s x s', P s -> x ∈ xs -> body s x = Ok s' -> P s') ->
  forEach xs body s = Ok out -> P out.
Proof.
  revert s. induction xs as [|x xs IH]; intros s Hs Hstep; simpl.
  - by intros [= <-].
  - destruct (body s x) as [s'|e] eqn:Hbody; run_bind; [|by intros [=]].
    apply IH.
    + apply (Hstep s x s' Hs); [apply elem_of_cons; by left|done].
    + intros s0 y s0' H0 Hy. apply Hstep; [done|apply elem_of_cons; by right].
Qed.



Example seedDomainCandidates_ids :
  map recommendedId seedDomainCandidates = ["acw"] /\
  Forall (fun rec => (score rec == 0.44)%Q) seedDomainCandidates.
Proof. split; [by vm_compute|]. repeat constructor. Qed.



(** ** Removing duplicates *)

Lemma keepFirst_ext (seen1 seen2 : list string) recs :
  (forall x, x ∈ seen1 <-> x ∈ seen2) -> keepFirst seen1 recs = keepFirst seen2 recs.
Proof.
  revert seen1 seen2. induction recs as [|rec rest IH]; intros seen1 seen2 Hext; simpl; [done|].
  assert (arrayIncludes seen1 (recommendedId rec) = arrayIncludes seen2 (recommendedId rec))
    as ->.
  { apply eq_true_iff_eq. rewrite !arrayIncludes_elem_of. apply Hext. }
  destruct (arrayIncludes seen2 (recommendedId rec)); [by apply IH|].
  f_equal. apply IH. intros x. rewrite !elem_of_cons. by rewrite Hext.
Qed.

(** The filter of the merge keeps a recommendation exactly when no earlier
    one is about the same dataset. *)
Lemma filterIndexed_first (front recs : list DatasetRecommendation) :
  filterIndexedFrom (isFirstOfItsDataset (front ++ recs)) (Z.of_nat (length front)) recs =
  keepFirst (map recommendedId front) recs.
Proof.
  revert front. induction recs as [|rec rest IH]; intros front; simpl; [done|].
  assert (front ++ rec :: rest = (front ++ [rec]) ++ rest) as Hsplit
    by (by rewrite <- app_assoc).
  assert (Z.of_nat (length front) + 1 = Z.of_nat (length (front ++ [rec]))) as Hlen
    by (rewrite length_app; simpl; lia).
  set (same := fun r => String.eqb (id (row (dataset r))) (id (row (dataset rec)))).
  assert (same rec = true) as Hsame by apply String.eqb_refl.
  unfold isFirstOfItsDataset at 1. fold same. unfold findIndex.
  destruct (arrayIncludes (map recommendedId front) (recommendedId rec)) eqn:Hseen.
  - apply arrayIncludes_elem_of, list_elem_of_fmap in Hseen as (y & Hy & Hin).
    pose proof (findIndexFrom_earlier same front (rec :: rest) 0) as Hearly.
    destruct Hearly as [H1 H2].
    { exists y. split; [done|]. unfold same. apply String.eqb_eq. by symmetry. }
    destruct (Z.eqb_spec (Z.of_nat (length front))
                         (findIndexFrom same 0 (front ++ rec :: rest))) as [Heq|_]; [lia|].
    rewrite Hsplit, Hlen, IH. apply keepFirst_ext. intros x.
    rewrite map_app. simpl. rewrite elem_of_app, list_elem_of_singleton.
    split; [|by left]. intros [Hx| ->]; [done|].
    rewrite Hy. apply list_elem_of_fmap. by exists y.
  - rewrite (findIndexFrom_first same front rec rest 0 Hsame).
    + rewrite Z.add_0_l, Z.eqb_refl. f_equal.
      rewrite Hsplit, Hlen, IH. apply keepFirst_ext. intros x.
      rewrite map_app. simpl. rewrite elem_of_app, list_elem_of_singleton, elem_of_cons.
      tauto.
    + intros y Hy. unfold same. apply String.eqb_neq. intros Heq.
      assert (arrayIncludes (map recommendedId front) (recommendedId rec) = true)
        as Hin; [|congruence].
      apply arrayIncludes_elem_of, list_elem_of_fmap. exists y. split; [|done].
      by symmetry.
Qed.

Lemma filterIndexed_keepFirst (recs : list DatasetRecommendation) :
  filterIndexed (isFirstOfItsDataset recs) recs = keepFirst [] recs.
Proof. apply (filterIndexed_first [] recs). Qed.

Lemma keepFirst_sublist seen recs : keepFirst seen recs `sublist_of` recs.
Proof.
  revert seen. induction recs as [|rec rest IH]; intros seen; simpl; [done|].
  destruct (arrayIncludes seen (recommendedId rec));
    [by apply sublist_cons|by apply sublist_skip].
Qed.

Lemma keepFirst_unseen seen recs rec :
  rec ∈ keepFirst seen recs -> recommendedId rec ∉ seen.
Proof.
  revert seen. induction recs as [|r rest IH]; intros seen Hin; simpl in Hin.
  - by apply elem_of_nil in Hin.
  - destruct (arrayIncludes seen (recommendedId r)) eqn:Hseen; [by apply IH|].
    apply elem_of_cons in Hin as [->|Hin].
    + intros H. apply arrayIncludes_elem_of in H. congruence.
    + apply IH in Hin. intros H. apply Hin. apply elem_of_cons; by right.
Qed.

Lemma keepFirst_NoDup seen recs : NoDup (map recommendedId (keepFirst seen recs)).
Proof.
  revert seen. induction recs as [|r rest IH]; intros seen; simpl; [constructor|].
  destruct (arrayIncludes seen (recommendedId r)); [apply IH|].
  simpl. constructor; [|apply IH].
  intros Hin. apply list_elem_of_fmap in Hin as (y & Heq & Hy).
  apply keepFirst_unseen in Hy. apply Hy. rewrite <- Heq. apply elem_of_cons; by left.
Qed.

Lemma keepFirst_first seen recs rec :
  rec ∈ keepFirst seen recs ->
  exists front back,
    recs = front ++ rec :: back /\
    forall earlier, earlier ∈ front -> recommendedId earlier <> recommendedId rec.
Proof.
  revert seen. induction recs as [|r rest IH]; intros seen Hin; simpl in Hin.
  - by apply elem_of_nil in Hin.
  - destruct (arrayIncludes seen (recommendedId r)) eqn:Hseen.
    + pose proof (keepFirst_unseen _ _ _ Hin) as Hunseen.
      apply IH in Hin as (front & back & -> & Hfront).
      exists (r :: front), back. split; [done|].
      intros earlier He. apply elem_of_cons in He as [->|He]; [|by apply Hfront].
      intros Heq. apply Hunseen. rewrite <- Heq. by apply arrayIncludes_elem_of.
    + apply elem_of_cons in Hin as [->|Hin].
      * exists [], rest. split; [done|]. intros earlier He. by apply elem_of_nil in He.
      * pose proof (keepFirst_unseen _ _ _ Hin) as Hunseen.
        apply IH in Hin as (front & back & -> & Hfront).
        exists (r :: front), back. split; [done|].
        intros earlier He. apply elem_of_cons in He as [->|He]; [|by apply Hfront].
        intros Heq. apply Hunseen. rewrite <- Heq. apply elem_of_cons; by left.
Qed.

(** ** Sorting by score *)

Lemma higherScoreFirst_spec a b : higherScoreFirst a b = true <-> (score b < score a)%Q.
Proof.
  unfold higherScoreFirst, byScoreDescending. rewrite Z.ltb_lt.
  destruct (score a) as [na da], (score b) as [nb db].
  unfold Qlt, Qminus, Qplus, Qopp. simpl. lia.
Qed.

Lemma higherScoreFirst_false a b : higherScoreFirst a b = false <-> (score a <= score b)%Q.
Proof.
  rewrite <- not_true_iff_false, higherScoreFirst_spec. split.
  - apply Qnot_lt_le.
  - apply Qle_not_lt.
Qed.

Lemma higherScoreFirst_asym a b :
  higherScoreFirst a b = true -> higherScoreFirst b a = false.
Proof.
  rewrite higherScoreFirst_spec, higherScoreFirst_false. apply Qlt_le_weak.
Qed.

Lemma higherScoreFirst_negtrans a b c :
  higherScoreFirst a b = false -> higherScoreFirst b c = false ->
  higherScoreFirst a c = false.
Proof. rewrite !higherScoreFirst_false. apply Qle_trans. Qed.

Lemma sortQ_sorted recs :
  StronglySorted (fun a b => (score b <= score a)%Q) (sortQ byScoreDescending recs).
Proof.
  pose proof (sortBy_sorted higherScoreFirst higherScoreFirst_asym
                higherScoreFirst_negtrans recs) as Hs.
  unfold sortQ. fold higherScoreFirst.
  induction Hs as [|x l Hl IH Hx]; constructor; [done|].
  eapply Forall_impl; [exact Hx|]. intros y Hy. by apply higherScoreFirst_false.
Qed.

(** ** The merge *)

Lemma keepFirst_ids seen recs x :
  x ∈ map recommendedId (keepFirst seen recs) <->
  x ∈ map recommendedId recs /\ x ∉ seen.
Proof.
  revert seen. induction recs as [|r rest IH]; intros seen; simpl.
  - split; [intros H; by apply elem_of_nil in H|intros [H _]; by apply elem_of_nil in H].
  - destruct (arrayIncludes seen (recommendedId r)) eqn:Hseen.
    + apply arrayIncludes_elem_of in Hseen. rewrite IH, elem_of_cons. split.
      * intros [? ?]. split; [by right|done].
      * intros [[->|?] ?]; done.
    + assert (recommendedId r ∉ seen) as Hr
        by (intros H; apply arrayIncludes_elem_of in H; congruence).
      simpl. rewrite !elem_of_cons, IH, not_elem_of_cons. split.
      * intros [->|(? & ? & ?)]; [by split; [left|]|by split; [right|]].
      * intros [[->|?] ?]; [by left|].
        destruct (decide (x = recommendedId r)) as [->|Hne]; [by left|by right].
Qed.

(** The further test of [getComplementaryDatasets]; with nothing excluded
    it is constantly true. *)
Lemma merge_mergedFrom (candidates : list DatasetRecommendation)
    (excluded : list string) (limit : Z) :
  mergedFrom candidates excluded limit
    (slice0 (sortQ byScoreDescending
               (filterIndexed
                  (fun rec index =>
                     isFirstOfItsDataset candidates rec index &&
                     negb (arrayIncludes excluded (id (row (dataset rec)))))
                  candidates))
            limit).
Proof.
  set (keep := fun rec : DatasetRecommendation =>
                 negb (arrayIncludes excluded (id (row (dataset rec))))).
  set (kept := List.filter keep (keepFirst [] candidates)).
  assert (filterIndexed
            (fun rec index =>
               isFirstOfItsDataset candidates rec index &&
               negb (arrayIncludes excluded (id (row (dataset rec)))))
            candidates = kept) as ->.
  { change (fun rec index =>
              isFirstOfItsDataset candidates rec index &&
              negb (arrayIncludes excluded (id (row (dataset rec)))))
      with (fun rec index => isFirstOfItsDataset candidates rec index && keep rec).
    unfold filterIndexed. rewrite filterIndexedFrom_and.
    change (filterIndexedFrom (isFirstOfItsDataset candidates) 0 candidates)
      with (filterIndexed (isFirstOfItsDataset candidates) candidates).
    by rewrite filterIndexed_keepFirst. }
  assert (forall rec, keep rec = true <-> recommendedId rec ∉ excluded) as Hkeep.
  { intros rec. unfold keep. rewrite negb_true_iff, <- not_true_iff_false.
    by rewrite arrayIncludes_elem_of. }
  assert (NoDup (map recommendedId kept)) as Hnodup.
  { apply (sublist_NoDup _ (map recommendedId (keepFirst [] candidates)));
      [apply keepFirst_NoDup|].
    apply sublist_map, filter_bool_sublist. }
  assert (forall rec, rec ∈ slice0 (sortQ byScoreDescending kept) limit -> rec ∈ kept) as Hin.
  { intros rec Hrec. eapply elem_of_sublist in Hrec; [|apply slice0_sublist].
    unfold sortQ in Hrec. by rewrite sortBy_perm in Hrec. }
  repeat split.
  - apply (sublist_NoDup _ (map recommendedId (sortQ byScoreDescending kept)));
      [|apply sublist_map, slice0_sublist].
    unfold sortQ. by rewrite (Permutation_map recommendedId (sortBy_perm _ kept)).
  - eapply StronglySorted_sublist; [apply slice0_sublist|apply sortQ_sorted].
  - intros Hlimit. rewrite slice0_length by done. f_equal.
    unfold sortQ. rewrite (Permutation_length (sortBy_perm _ kept)).
    rewrite <- (length_map recommendedId kept).
    rewrite <- (size_list_to_set (C := gset string) _ Hnodup). do 2 f_equal.
    apply set_eq. intros x. unfold candidateIds.
    rewrite elem_of_difference, !elem_of_list_to_set, !list_elem_of_fmap. split.
    + intros (rec & -> & Hrec). apply elem_of_filter_bool in Hrec as [Hrec Hk].
      split; [|by apply Hkeep].
      apply elem_of_sublist with (l2 := candidates) in Hrec; [|apply keepFirst_sublist].
      by exists rec.
    + intros [Hx Hex].
      assert (x ∈ map recommendedId (keepFirst [] candidates)) as Hfirst.
      { apply keepFirst_ids. split; [by apply list_elem_of_fmap|].
        intros H. by apply elem_of_nil in H. }
      apply list_elem_of_fmap in Hfirst as (rec & -> & Hrec).
      exists rec. split; [done|]. apply elem_of_filter_bool. split; [done|].
      by apply Hkeep.
  - apply Hin, elem_of_filter_bool in H as [_ Hk]. by apply Hkeep.
  - apply Hin, elem_of_filter_bool in H as [Hrec _]. by apply keepFirst_first in Hrec.
Qed.

Lemma uniqueRecommendations_mergedFrom candidates limit :
  mergedFrom candidates [] limit (uniqueRecommendations candidates limit).
Proof.
  pose proof (merge_mergedFrom candidates [] limit) as H.
  unfold uniqueRecommendations, filterIndexed in *.
  erewrite filterIndexedFrom_ext; [exact H|].
  intros x j. simpl. by rewrite andb_true_r.
Qed.

Lemma mergedFrom_length candidates excluded limit final :
  mergedFrom candidates excluded limit final -> 0 <= limit ->
  Z.of_nat (length final) <= limit.
Proof. intros (_ & _ & Hlen & _) Hlimit. rewrite Hlen by done. lia. Qed.

Section Engine.
Variables (JSON_parse : jsonParser) (prisma : PrismaClient).

Lemma getRelatedRecommendations_cases datasetId limit final :
  getRelatedRecommendations JSON_parse prisma datasetId limit = Ok final ->
  (findUnique prisma datasetId = Ok None /\ final = []) \/
  exists seed candidates,
    findUnique prisma datasetId = Ok (Some seed) /\
    collectRelated JSON_parse prisma datasetId seed = Ok candidates /\
    final = uniqueRecommendations candidates (default 5 limit).
Proof.
  unfold getRelatedRecommendations.
  destruct (findUnique prisma datasetId) as [[seed|]|e]; run_bind; [| |by intros [=]].
  - destruct (collectRelated JSON_parse prisma datasetId seed) as [candidates|e] eqn:Hc;
      run_bind; [|by intros [=]].
    intros [= <-]. right. by exists seed, candidates.
  - intros [= <-]. by left.
Qed.

Lemma getRelatedRecommendations_length datasetId limit final :
  getRelatedRecommendations JSON_parse prisma datasetId (Some limit) = Ok final ->
  0 <= limit -> Z.of_nat (length final) <= limit.
Proof.
  intros Hfinal Hlimit.
  apply getRelatedRecommendations_cases in Hfinal as [[_ ->]|(seed & c & _ & _ & ->)].
  - simpl. lia.
  - eapply mergedFrom_length; [apply uniqueRecommendations_mergedFrom|done].
Qed.


(** C3, as the code has it. The answers of [getRelatedRecommendations],
    [getSearchRecommendations] and [getComplementaryDatasets] hold no dataset
    twice, keep of every dataset the first recommendation among the
    candidates collected, are sorted by falling score and, when the limit is
    not negative, hold one recommendation for each dataset among the
    candidates up to the limit: the limit of the caller, 5 when the caller
    gives none, and the constant 5 for the complementary datasets, which
    leave the seeds out.  [getTrendingDatasets] makes one recommendation of
    every row the store answers, in the order of the store. *)
Theorem merged_recommendations_unique_sorted_bounded :
  (forall datasetId limit final,
     getRelatedRecommendations JSON_parse prisma datasetId limit = Ok final ->
     (findUnique prisma datasetId = Ok None /\ final = []) \/
     exists seed candidates,
       findUnique prisma datasetId = Ok (Some seed) /\
       collectRelated JSON_parse prisma datasetId seed = Ok candidates /\
       mergedFrom candidates [] (default 5 limit) final) /\
  (forall context limit final,
     getSearchRecommendations JSON_parse prisma context limit = Ok final ->
     exists candidates,
       collectSearch JSON_parse prisma context = Ok candidates /\
       mergedFrom candidates [] (default 5 limit) final) /\
  (forall datasetIds final,
     getComplementaryDatasets JSON_parse prisma datasetIds = Ok final ->
     exists candidates,
       collectComplementary JSON_parse prisma datasetIds = Ok candidates /\
       mergedFrom candidates datasetIds 5 final) /\
  (forall limit final,
     getTrendingDatasets JSON_parse prisma limit = Ok final ->
     exists rows,
       findManyRecentlyUpdated prisma (default 5 limit) = Ok rows /\
       map (fun rec => row (dataset rec)) final = map counted rows /\
       map score final =
       map (fun d => inject_Z ((countRelatedFrom d + countRelatedTo d) * 10)) rows).
Proof.
  repeat apply conj.
  - intros datasetId limit final Hfinal.
    apply getRelatedRecommendations_cases in Hfinal as [?|(seed & c & ? & ? & ->)];
      [by left|right].
    exists seed, c. split; [done|]. split; [done|].
    apply uniqueRecommendations_mergedFrom.
  - intros context limit final. unfold getSearchRecommendations.
    destruct (collectSearch JSON_parse prisma context) as [c|e] eqn:Hc;
      run_bind; [|by intros [=]].
    intros [= <-]. exists c. split; [done|]. apply uniqueRecommendations_mergedFrom.
  - intros datasetIds final. unfold getComplementaryDatasets.
    destruct (collectComplementary JSON_parse prisma datasetIds) as [c|e] eqn:Hc;
      run_bind; [|by intros [=]].
    intros [= <-]. exists c. split; [done|]. apply merge_mergedFrom.
  - intros limit final. unfold getTrendingDatasets.
    destruct (findManyRecentlyUpdated prisma (default 5 limit)) as [rows|e] eqn:Hrows;
      run_bind; [|by intros [=]].
    intros [= <-]. exists rows. split; [done|]. by rewrite !map_map.
Qed.

End Engine.

(** ** The engine over the seed store *)

(** The search recommendations for the domain [labour] and the keyword
    [workforce]. *)
Lemma merged_recommendations_witness :
  exists candidates,
    collectSearch JsonText.parse (client seedStore) searchContext = Ok candidates /\
    mergedFrom candidates [] 5 seedSearchAnswer.
Proof.
  exact (proj1 (proj2 (merged_recommendations_unique_sorted_bounded
                         JsonText.parse (client seedStore)))
           searchContext None seedSearchAnswer eq_refl).
Defined.

Example seedSearchAnswer_ids :
  map recommendedId seedSearchAnswer = ["lf"; "acw"] /\
  map type seedSearchAnswer = [TypeDomain; TypeDomain].
Proof. by vm_compute. Qed.

(** C3, counterexample. The census was updated last and has no relation:
    the trending list starts with it, at score 0, before two datasets at
    score 10.  And with the limit -1 the related recommendations of the
    labour force survey are one, which is more than the limit. *)
Lemma trending_not_sorted_by_score :
  answeredIds (getTrendingDatasets JsonText.parse (client seedStore) None)
  = Some ["census"; "lf"; "acw"] /\
  answeredScores (getTrendingDatasets JsonText.parse (client seedStore) None)
  = Some [inject_Z 0; inject_Z 10; inject_Z 10] /\
  (inject_Z 0 < inject_Z 10)%Q /\
  answeredIds (getRelatedRecommendations JsonText.parse (client seedStore) "lf" (Some (-1)))
  = Some ["acw"].
Proof. repeat split. Qed.


Example seedComplementary_ids : map recommendedId seedComplementary = ["census"].
Proof. by vm_compute. Qed.


End RecommendationFacts.

(* ================================================================== *)
(** * Facts about text and patterns *)
(* ================================================================== *)

Module TextFacts.
Import JS Notions TextNotions JSFacts.

(** ** The elements of [[...new Set(xs)]] *)

Lemma elem_of_uniqueFrom (seen xs : list string) (x : string) :
  x ∈ uniqueFrom seen xs <-> x ∈ xs /\ x ∉ seen.
Proof.
  revert seen. induction xs as [|y xs IH]; intros seen; simpl.
  - rewrite elem_of_nil. tauto.
  - destruct (arrayIncludes seen y) eqn:Hin.
    + apply arrayIncludes_elem_of in Hin. rewrite IH, elem_of_cons.
      split; [tauto|]. intros [[->|Hx] Hn]; tauto.
    + assert (y ∉ seen) as Hy
        by (intros H; apply arrayIncludes_elem_of in H; congruence).
      rewrite !elem_of_cons, IH, elem_of_cons.
      destruct (decide (x = y)) as [->|Hne]; tauto.
Qed.

Lemma uniqueFrom_NoDup (seen xs : list string) : NoDup (uniqueFrom seen xs).
Proof.
  revert seen. induction xs as [|y xs IH]; intros seen; simpl; [constructor|].
  destruct (arrayIncludes seen y); [apply IH|].
  constructor; [|apply IH].
  rewrite elem_of_uniqueFrom, elem_of_cons. tauto.
Qed.


Lemma elem_of_unique (xs : list string) (x : string) : x ∈ unique xs <-> x ∈ xs.
Proof. unfold unique. rewrite elem_of_uniqueFrom, elem_of_nil. tauto. Qed.

(** ** Characters of the pieces of a split *)

Lemma allChars_consPiece (p : ascii -> bool) (c : ascii) (pieces : list string) :
  p c = true -> Forall (fun piece => allChars p piece = true) pieces ->
  Forall (fun piece => allChars p piece = true) (consPiece c pieces).
Proof.
  intros Hc Hall. destruct Hall as [|piece rest Hp Hrest]; simpl.
  - constructor; [simpl; by rewrite Hc | constructor].
  - constructor; [simpl; by rewrite Hc, Hp | done].
Qed.

(** The pieces of [split(/\s+/)] hold the characters that are no white
    space. *)
Lemma splitSpacesFrom_chars (p : ascii -> bool) (inRun : bool) (s : string) :
  allChars (fun c => isSpace c || p c) s = true ->
  Forall (fun piece => allChars p piece = true) (splitSpacesFrom inRun s).
Proof.
  revert inRun. induction s as [|c r IH]; intros inRun Hall; simpl.
  - by repeat constructor.
  - simpl in Hall. apply andb_true_iff in Hall as [Hc Hr].
    destruct (isSpace c) eqn:Hsp.
    + destruct inRun; [by apply IH|]. constructor; [done | by apply IH].
    + apply allChars_consPiece; [done | by apply IH].
Qed.

Lemma replaceNonWordNonSpace_chars (s : string) :
  allChars (fun c => isSpace c || isWord c) (replaceNonWordNonSpace s) = true.
Proof.
  induction s as [|c r IH]; simpl; [done|]. rewrite IH, andb_true_r.
  destruct (isWord c) eqn:Hw; simpl; [by rewrite Hw, orb_true_r|].
  destruct (isSpace c) eqn:Hs; simpl; [by rewrite Hs | done].
Qed.

(** ** Appending and containing *)

Lemma append_cons (c : ascii) (a b : string) : String c a +:+ b = String c (a +:+ b).
Proof. reflexivity. Qed.

Lemma append_nil_l (a : string) : "" +:+ a = a.
Proof. reflexivity. Qed.

Lemma append_assoc (a b c : string) : (a +:+ b) +:+ c = a +:+ (b +:+ c).
Proof. induction a as [|x a IH]; [done|]. rewrite !append_cons. by f_equal. Qed.

Lemma append_nil_r (a : string) : a +:+ "" = a.
Proof. induction a as [|x a IH]; [done|]. rewrite append_cons. by f_equal. Qed.

Lemma length_append (a b : string) :
  String.length (a +:+ b) = (String.length a + String.length b)%nat.
Proof. induction a as [|x a IH]; [done|]. rewrite append_cons. simpl. by f_equal. Qed.

Lemma substring_append (a b : string) : substring 0 (String.length a) (a +:+ b) = a.
Proof.
  induction a as [|x a IH]; [by destruct b|]. rewrite append_cons. simpl. by f_equal.
Qed.

Lemma prefix_append (a b : string) : String.prefix a (a +:+ b) = true.
Proof. apply prefix_correct, substring_append. Qed.

Lemma includes_prefix (text part : string) :
  String.prefix part text = true -> includes text part = true.
Proof. intros H. destruct text; unfold includes; fold includes; by rewrite H. Qed.

Lemma includes_occurs (text part : string) : occursIn text part -> includes text part = true.
Proof.
  intros (pre & post & ->). induction pre as [|c pre IH].
  - rewrite append_nil_l. apply includes_prefix, prefix_append.
  - rewrite append_cons. unfold includes; fold includes. rewrite IH. apply orb_true_r.
Qed.

Lemma occursIn_tail (c : ascii) (text part : string) :
  occursIn text part -> occursIn (String c text) part.
Proof. intros (pre & post & ->). by exists (String c pre), post. Qed.

(** ** What a pattern matches *)

Section Matching.
Variable icase : bool.

Lemma matchLit_sound lit prev s k rest :
  matchLit icase lit prev s k = Some rest ->
  exists m s' p, s = m +:+ s' /\ sameText icase lit m = true /\ k p s' = Some rest.
Proof.
  revert prev s. induction lit as [|l lit IH]; intros prev s; simpl.
  - intros Hk. by exists "", s, prev.
  - destruct s as [|c r]; [done|]. destruct (sameChar icase l c) eqn:Hc; [|done].
    intros H. apply IH in H as (m & s' & p & -> & Hm & Hk).
    exists (String c m), s', p. simpl. by rewrite Hc, Hm.
Qed.

Lemma matchAnyStar_sound prev s k rest :
  matchAnyStar prev s k = Some rest ->
  exists m s' p, s = m +:+ s' /\
                 allChars (fun c => negb (isLineTerminator c)) m = true /\
                 k p s' = Some rest.
Proof.
  revert prev. induction s as [|c r IH]; intros prev; simpl.
  - intros Hk. by exists "", "", prev.
  - destruct (isLineTerminator c) eqn:Hc.
    + intros Hk. by exists "", (String c r), prev.
    + destruct (matchAnyStar (Some c) r k) as [rest'|] eqn:Hr.
      * intros [= ->]. apply IH in Hr as (m & s' & p & -> & Hm & Hk).
        exists (String c m), s', p. simpl. by rewrite Hc, Hm.
      * intros Hk. by exists "", (String c r), prev.
Qed.

(** Whatever the continuation [k], a match of [r] takes a text that [r]
    denotes off the front and hands the remainder to [k]. *)
Lemma matchRegex_sound r prev s k rest :
  matchRegex icase r prev s k = Some rest ->
  exists m s' p, s = m +:+ s' /\ denotes icase r m /\ k p s' = Some rest.
Proof.
  revert prev s k. induction r as [lit| | | |r1 IH1 r2 IH2|r1 IH1 r2 IH2];
    intros prev s k; simpl.
  - apply matchLit_sound.
  - destruct s as [|c r]; [done|]. destruct (isDigit c) eqn:Hc; [|done].
    intros Hk. exists (String c ""), r, (Some c). eauto.
  - apply matchAnyStar_sound.
  - destruct (atBoundary prev s); [|done]. intros Hk. by exists "", s, prev.
  - intros H. apply IH1 in H as (m1 & s1 & p1 & -> & Hm1 & H).
    apply IH2 in H as (m2 & s2 & p2 & -> & Hm2 & Hk).
    exists (m1 +:+ m2), s2, p2. rewrite append_assoc. eauto 10.
  - destruct (matchRegex icase r1 prev s k) as [rest'|] eqn:H1.
    + intros [= ->]. apply IH1 in H1 as (m & s' & p & -> & Hm & Hk).
      exists m, s', p. eauto.
    + intros H. apply IH2 in H as (m & s' & p & -> & Hm & Hk).
      exists m, s', p. eauto.
Qed.

Lemma matchAt_sound r prev s len :
  matchAt icase r prev s = Some len ->
  exists m rest, s = m +:+ rest /\ denotes icase r m /\ len = String.length m.
Proof.
  unfold matchAt.
  destruct (matchRegex icase r prev s (fun _ rest => Some rest)) as [rest|] eqn:H; [|done].
  intros [= <-]. apply matchRegex_sound in H as (m & s' & p & -> & Hm & [= ->]).
  exists m, rest. rewrite length_append. repeat split; [done | lia].
Qed.

Lemma testFrom_sound r prev s :
  testFrom icase r prev s = true -> exists m, occursIn s m /\ denotes icase r m.
Proof.
  revert prev. induction s as [|c s IH]; intros prev; simpl.
  - destruct (matchAt icase r prev "") as [len|] eqn:H; [|done]. intros _.
    apply matchAt_sound in H as (m & rest & -> & Hm & _). exists m. split; [|done].
    by exists "", rest.
  - destruct (matchAt icase r prev (String c s)) as [len|] eqn:H.
    + intros _. apply matchAt_sound in H as (m & rest & -> & Hm & _).
      exists m. split; [|done]. by exists "", rest.
    + intros H'. apply IH in H' as (m & Hocc & Hm). exists m.
      split; [by apply occursIn_tail | done].
Qed.

Lemma matchAllFrom_sound r skip prev s :
  Forall (fun m => occursIn s m /\ denotes icase r m) (matchAllFrom icase r skip prev s).
Proof.
  revert skip prev. induction s as [|c s IH]; intros skip prev.
  - destruct skip; simpl; [|constructor].
    destruct (matchAt icase r prev "") as [len|] eqn:H; [|constructor].
    apply matchAt_sound in H as (m & rest & E & Hm & ->).
    destruct m as [|x m]; [|by rewrite append_cons in E].
    constructor; [|constructor]. split; [by exists "", "" | done].
  - assert (forall skip' prev',
              Forall (fun m => occursIn (String c s) m /\ denotes icase r m)
                     (matchAllFrom icase r skip' prev' s)) as Htail.
    { intros skip' prev'. eapply Forall_impl; [apply IH|].
      intros m [Hocc Hm]. split; [by apply occursIn_tail | done]. }
    destruct skip; cbn [matchAllFrom]; [|apply Htail].
    destruct (matchAt icase r prev (String c s)) as [len|] eqn:H; [|apply Htail].
    apply matchAt_sound in H as (m & rest & E & Hm & ->).
    constructor; [|apply Htail]. rewrite E, substring_append.
    split; [by exists "", rest | done].
Qed.
End Matching.

Lemma test_sound icase r s :
  test icase r s = true -> exists m, occursIn s m /\ denotes icase r m.
Proof. apply testFrom_sound. Qed.

Lemma matchAll_sound icase r s :
  Forall (fun m => occursIn s m /\ denotes icase r m) (matchAll icase r s).
Proof. apply matchAllFrom_sound. Qed.

Lemma elem_of_matchAll icase r s m :
  m ∈ matchAll icase r s -> occursIn s m /\ denotes icase r m.
Proof.
  pose proof (matchAll_sound icase r s) as Hall. rewrite Forall_forall in Hall. apply Hall.
Qed.

(** Under the [i] flag a literal matches the texts that are the literal up to
    case. *)
Lemma sameText_icase (a m : string) :
  sameText true a m = true -> toLowerCase m = toLowerCase a.
Proof.
  revert m. induction a as [|x a IH]; intros [|y m]; simpl; try done.
  intros H. apply andb_true_iff in H as [Hc Hm]. apply Ascii.eqb_eq in Hc.
  by rewrite Hc, (IH m Hm).
Qed.

Lemma sameText_exact (a m : string) : sameText false a m = true -> m = a.
Proof.
  revert m. induction a as [|x a IH]; intros [|y m]; simpl; try done.
  intros H. apply andb_true_iff in H as [Hc Hm]. apply Ascii.eqb_eq in Hc.
  by rewrite Hc, (IH m Hm).
Qed.

Lemma denotes_oneOf icase (alts : list string) (m : string) :
  alts <> [] -> denotes icase (oneOf alts) m ->
  exists a, a ∈ alts /\ sameText icase a m = true.
Proof.
  induction alts as [|a alts IH]; [done|]. intros _.
  destruct alts as [|b alts]; simpl.
  - intros H. exists a. split; [apply list_elem_of_here | done].
  - intros [H|H].
    + exists a. split; [apply list_elem_of_here | done].
    + destruct IH as (a' & Hin & Ha'); [done | exact H |].
      exists a'. split; [by apply list_elem_of_further | done].
Qed.

Lemma denotes_wholeWord icase r m :
  denotes icase (wholeWord r) m -> denotes icase r m.
Proof.
  simpl. intros (m1 & m2 & -> & -> & m3 & m4 & -> & Hr & ->).
  simpl. by rewrite append_nil_r.
Qed.

End TextFacts.

(* ================================================================== *)
(** * More facts about the interpreter *)
(* ================================================================== *)

Module InterpreterFacts.
Import JS Nlp Stated Notions TextNotions InterpreterNotions JSFacts TextFacts NlpFacts.

(** ** Keywords *)

(** Keywords hold word characters only. *)
Lemma extractKeywords_words (query : string) :
  Forall (fun keyword => allChars isWord keyword = true) (extractKeywords query).
Proof.
  apply Forall_forall. intros keyword Hk. unfold extractKeywords in Hk.
  rewrite elem_of_unique, elem_of_filter_bool in Hk. destruct Hk as [Htoken _].
  pose proof (splitSpacesFrom_chars isWord false _
                (replaceNonWordNonSpace_chars query)) as Hall.
  rewrite Forall_forall in Hall. by apply Hall.
Qed.


(** ** Intent and entities *)

Lemma denotes_words (alts : list string) (m : string) :
  alts <> [] -> denotes true (wholeWord (oneOf alts)) m ->
  toLowerCase m ∈ map toLowerCase alts.
Proof.
  intros Hne H. apply denotes_wholeWord, denotes_oneOf in H as (a & Hin & Ha); [|done].
  rewrite (sameText_icase _ _ Ha). apply list_elem_of_fmap. by exists a.
Qed.

Lemma detectIntentIn_first patterns query front pattern i back :
  patterns = front ++ (pattern, i) :: back ->
  test true pattern query = true ->
  (forall p, p ∈ front -> test true (fst p) query = false) ->
  detectIntentIn patterns query = i.
Proof.
  intros -> Hp. induction front as [|[p' i'] front IH]; intros Hfront; simpl.
  - by rewrite Hp.
  - pose proof (Hfront (p', i') (list_elem_of_here _ _)) as Hhead.
    simpl in Hhead. rewrite Hhead.
    apply IH. intros p Hin. apply Hfront. by apply list_elem_of_further.
Qed.

Lemma detectIntentIn_default patterns query :
  (forall p, p ∈ patterns -> test true (fst p) query = false) ->
  detectIntentIn patterns query = search.
Proof.
  induction patterns as [|[p' i'] patterns IH]; intros Hall; simpl; [done|].
  pose proof (Hall (p', i') (list_elem_of_here _ _)) as Hhead.
  simpl in Hhead. rewrite Hhead.
  apply IH. intros p Hin. apply Hall. by apply list_elem_of_further.
Qed.

(** X6. [detectIntent] answers the intent of the first pattern of the table
    that matches, and [search] when none does; it never answers [question].
    It answers [comparison] only for a query that holds one of compare,
    versus, vs, difference, and [trend] only for a query that holds one of
    trend, change, over time, since, or a text that runs from "from" to "to";
    all up to case. *)
Theorem detectIntent_first_match (query : string) :
  detectIntent query <> question /\
  (forall front pattern i back,
     QUESTION_PATTERNS = front ++ (pattern, i) :: back ->
     test true pattern query = true ->
     (forall p, p ∈ front -> test true (fst p) query = false) ->
     detectIntent query = i) /\
  ((forall p, p ∈ QUESTION_PATTERNS -> test true (fst p) query = false) ->
   detectIntent query = search) /\
  (detectIntent query = comparison ->
   exists word, occursIn query word /\
                toLowerCase word ∈ ["compare"; "versus"; "vs"; "difference"]) /\
  (detectIntent query = trend ->
   exists found, occursIn query found /\
     (toLowerCase found ∈ ["trend"; "change"; "over time"; "since"] \/
      exists first middle last, found = first +:+ middle +:+ last /\
        toLowerCase first = "from" /\ toLowerCase last = "to")).
Proof.
  split; [|split; [|split; [|split]]].
  - unfold detectIntent, QUESTION_PATTERNS. cbn [detectIntentIn].
    repeat match goal with |- context [if ?b then _ else _] => destruct b end; done.
  - intros front pattern i back. apply detectIntentIn_first.
  - apply detectIntentIn_default.
  - unfold detectIntent, QUESTION_PATTERNS. cbn [detectIntentIn].
    destruct (test true _ query) eqn:H1; [done|].
    destruct (test true _ query) eqn:H2 in |- *; [done|].
    destruct (test true _ query) eqn:Hc in |- *;
      [|by match goal with |- context [if ?b then _ else _] => destruct b end].
    intros _. apply test_sound in Hc as (word & Hocc & Hword).
    exists word. split; [done|]. by apply denotes_words in Hword.
  - unfold detectIntent, QUESTION_PATTERNS. cbn [detectIntentIn].
    destruct (test true _ query) eqn:H1; [done|].
    destruct (test true _ query) eqn:H2 in |- *; [done|].
    destruct (test true _ query) eqn:H3 in |- *; [done|].
    destruct (test true _ query) eqn:Ht in |- *; [|done].
    intros _. apply test_sound in Ht as (found & Hocc & Hfound).
    exists found. split; [done|]. apply denotes_wholeWord in Hfound.
    destruct Hfound as [H|[H|[H|[H|H]]]].
    1-4: left; rewrite (sameText_icase _ _ H); set_solver.
    right. destruct H as (first & rest & -> & Hfirst & middle & last & -> & _ & Hlast).
    exists first, middle, last. split; [done|].
    by rewrite (sameText_icase _ _ Hfirst), (sameText_icase _ _ Hlast).
Qed.

(** What an entity is: a piece of the query that one of the three patterns
    matches. *)
Lemma extractEntities_elements (query entity : string) :
  entity ∈ extractEntities query ->
  occursIn query entity /\
  (toLowerCase entity ∈ ["act"; "nsw"; "qld"; "sa"; "tas"; "vic"; "wa"; "nt"] \/
   toLowerCase entity ∈
     ["january"; "february"; "march"; "april"; "may"; "june"; "july";
      "august"; "september"; "october"; "november"; "december"] \/
   exists d, isDigit d = true /\
             (entity = "201" +:+ String d "" \/ entity = "202" +:+ String d "")).
Proof.
  unfold extractEntities. intros Hin. rewrite elem_of_unique in Hin.
  unfold ENTITY_PATTERNS in Hin. cbn [fold_left] in Hin.
  rewrite !elem_of_app in Hin. destruct Hin as [[[Hin|Hin]|Hin]|Hin].
  - by apply elem_of_nil in Hin.
  - apply elem_of_matchAll in Hin as [Hocc Hm]. split; [done|].
    left. by apply denotes_words in Hm.
  - apply elem_of_matchAll in Hin as [Hocc Hm]. split; [done|].
    right; right. apply denotes_wholeWord in Hm.
    destruct Hm as [(m1 & m2 & -> & H1 & d & Hd & ->)|(m1 & m2 & -> & H1 & d & Hd & ->)];
      apply sameText_exact in H1 as ->; exists d; auto.
  - apply elem_of_matchAll in Hin as [Hocc Hm]. split; [done|].
    right; left. by apply denotes_words in Hm.
Qed.

(** X7. The entities of [extractEntities] are distinct; each occurs in the
    query and is, up to case, a state code, a month name, or a year from 2010
    to 2029. *)
Theorem extractEntities_vocabulary (query : string) :
  NoDup (extractEntities query) /\
  Forall (fun entity =>
            includes query entity = true /\
            (toLowerCase entity ∈ ["act"; "nsw"; "qld"; "sa"; "tas"; "vic"; "wa"; "nt"] \/
             toLowerCase entity ∈
               ["january"; "february"; "march"; "april"; "may"; "june"; "july";
                "august"; "september"; "october"; "november"; "december"] \/
             exists d, isDigit d = true /\
                       (entity = "201" +:+ String d "" \/ entity = "202" +:+ String d "")))
         (extractEntities query).
Proof.
  split; [apply uniqueFrom_NoDup|].
  apply Forall_forall. intros entity Hin.
  apply extractEntities_elements in Hin as [Hocc Hkind].
  split; [by apply includes_occurs | done].
Qed.

(** ** Case and white space *)

Lemma lowerChar_not_upper (c : ascii) : isUpper (lowerChar c) = false.
Proof. destruct c as [[] [] [] [] [] [] [] []]; reflexivity. Qed.

Lemma lowerChar_space (c : ascii) : isSpace (lowerChar c) = isSpace c.
Proof. destruct c as [[] [] [] [] [] [] [] []]; reflexivity. Qed.

Lemma lowerChar_idem (c : ascii) : lowerChar (lowerChar c) = lowerChar c.
Proof. unfold lowerChar at 1. by rewrite lowerChar_not_upper. Qed.

Lemma toLowerCase_idem (s : string) : toLowerCase (toLowerCase s) = toLowerCase s.
Proof. induction s as [|c r IH]; simpl; [done|]. by rewrite lowerChar_idem, IH. Qed.

Lemma toLowerCase_trimStart (s : string) :
  toLowerCase (trimStart s) = trimStart (toLowerCase s).
Proof.
  induction s as [|c r IH]; simpl; [done|]. rewrite lowerChar_space.
  by destruct (isSpace c).
Qed.

Lemma toLowerCase_trimEnd (s : string) :
  toLowerCase (trimEnd s) = trimEnd (toLowerCase s).
Proof.
  induction s as [|c r IH]; simpl; [done|]. rewrite <- IH, lowerChar_space.
  destruct (trimEnd r); simpl; [by destruct (isSpace c) | done].
Qed.

Lemma toLowerCase_trim (s : string) : toLowerCase (trim s) = trim (toLowerCase s).
Proof. unfold trim. by rewrite toLowerCase_trimEnd, toLowerCase_trimStart. Qed.

Lemma trimEnd_idem (s : string) : trimEnd (trimEnd s) = trimEnd s.
Proof.
  induction s as [|c r IH]; simpl; [done|].
  destruct (trimEnd r) as [|c' r'] eqn:Hr.
  - destruct (isSpace c) eqn:Hc; simpl; [done | by rewrite Hc].
  - simpl in *. by rewrite IH.
Qed.

Lemma trimStart_clean (s : string) : startsClean (trimStart s).
Proof. induction s as [|c r IH]; simpl; [done|]. by destruct (isSpace c) eqn:Hc. Qed.

Lemma trimStart_of_clean (s : string) : startsClean s -> trimStart s = s.
Proof. destruct s as [|c r]; simpl; [done|]. by intros ->. Qed.

Lemma trimEnd_clean (s : string) : startsClean s -> startsClean (trimEnd s).
Proof.
  destruct s as [|c r]; simpl; [done|]. intros Hc.
  destruct (trimEnd r); simpl; [by rewrite Hc | done].
Qed.

Lemma trim_idem (s : string) : trim (trim s) = trim s.
Proof.
  unfold trim.
  rewrite (trimStart_of_clean (trimEnd (trimStart s)))
    by apply trimEnd_clean, trimStart_clean.
  apply trimEnd_idem.
Qed.

(** Normalizing a normalized text changes nothing. *)
Lemma normalize_idem (text : string) :
  trim (toLowerCase (trim (toLowerCase text))) = trim (toLowerCase text).
Proof. by rewrite toLowerCase_trim, toLowerCase_idem, trim_idem. Qed.

(** ** Texts without capital letters *)

Lemma allChars_impl (p q : ascii -> bool) (s : string) :
  (forall c, p c = true -> q c = true) -> allChars p s = true -> allChars q s = true.
Proof.
  intros Hpq. induction s as [|c r IH]; simpl; [done|].
  intros H. apply andb_true_iff in H as [Hc Hr]. by rewrite (Hpq c Hc), IH.
Qed.

Lemma allChars_append (p : ascii -> bool) (a b : string) :
  allChars p (a +:+ b) = allChars p a && allChars p b.
Proof.
  induction a as [|c a IH]; [done|]. rewrite append_cons. simpl.
  by rewrite IH, andb_assoc.
Qed.

Lemma allChars_occursIn (p : ascii -> bool) (text part : string) :
  occursIn text part -> allChars p text = true -> allChars p part = true.
Proof.
  intros (pre & post & ->). rewrite !allChars_append, !andb_true_iff. tauto.
Qed.

Lemma toLowerCase_lower (s : string) : allChars (fun c => negb (isUpper c)) (toLowerCase s) = true.
Proof.
  induction s as [|c r IH]; simpl; [done|]. by rewrite lowerChar_not_upper, IH.
Qed.

Lemma toLowerCase_of_lower (s : string) :
  allChars (fun c => negb (isUpper c)) s = true -> toLowerCase s = s.
Proof.
  induction s as [|c r IH]; simpl; [done|]. intros H.
  apply andb_true_iff in H as [Hc Hr]. apply negb_true_iff in Hc.
  unfold lowerChar. by rewrite Hc, IH.
Qed.

Lemma trimStart_chars (p : ascii -> bool) (s : string) :
  allChars p s = true -> allChars p (trimStart s) = true.
Proof.
  induction s as [|c r IH]; simpl; [done|]. intros H.
  destruct (isSpace c); [|done]. apply andb_true_iff in H as [_ Hr]. by apply IH.
Qed.

Lemma trimEnd_chars (p : ascii -> bool) (s : string) :
  allChars p s = true -> allChars p (trimEnd s) = true.
Proof.
  induction s as [|c r IH]; simpl; [done|]. intros H.
  apply andb_true_iff in H as [Hc Hr]. specialize (IH Hr).
  destruct (trimEnd r); simpl in *; [destruct (isSpace c); simpl; by rewrite ?Hc |].
  by rewrite Hc, IH.
Qed.

Lemma replaceNonWordNonSpace_lower (s : string) :
  allChars (fun c => negb (isUpper c)) s = true ->
  allChars (fun c => negb (isUpper c)) (replaceNonWordNonSpace s) = true.
Proof.
  induction s as [|c r IH]; simpl; [done|]. intros H.
  apply andb_true_iff in H as [Hc Hr]. rewrite (IH Hr), andb_true_r.
  by destruct (isWord c || isSpace c).
Qed.

Lemma tokens_lower (query : string) :
  allChars (fun c => negb (isUpper c)) query = true ->
  Forall (fun token => allChars (fun c => negb (isUpper c)) token = true) (tokens query).
Proof.
  intros H. apply splitSpacesFrom_chars.
  eapply allChars_impl; [|by apply replaceNonWordNonSpace_lower].
  intros c ->. apply orb_true_r.
Qed.

Lemma normalized_lower (text : string) :
  allChars (fun c => negb (isUpper c)) (trim (toLowerCase text)) = true.
Proof. apply trimEnd_chars, trimStart_chars, toLowerCase_lower. Qed.

(** X5. [processQuery] reads its text in lower case and without white
    space at either end: interpreting the normalized text again gives the same
    keywords, domains, intent, entities and confidence, only [originalQuery]
    keeps the text as given; and no keyword holds a capital letter. *)
Theorem processQuery_normal_form (text : string) :
  let q := processQuery text in
  let q' := processQuery (trim (toLowerCase text)) in
  originalQuery q = text /\
  keywords q' = keywords q /\
  domains q' = domains q /\
  queryIntent q' = queryIntent q /\
  entities q' = entities q /\
  confidence q' = confidence q /\
  Forall (fun keyword => allChars (fun c => negb (isUpper c)) keyword = true) (keywords q).
Proof.
  unfold processQuery. cbn [originalQuery keywords domains queryIntent entities confidence].
  rewrite !normalize_idem. repeat split.
  apply Forall_forall. intros keyword Hk.
  unfold extractKeywords in Hk. rewrite elem_of_unique, elem_of_filter_bool in Hk.
  pose proof (tokens_lower _ (normalized_lower text)) as Hall.
  rewrite Forall_forall in Hall. apply Hall. tauto.
Qed.

(** ** Related terms *)

(** A loop that only appends leaves the concatenation of what it appended. *)
Lemma fold_left_append {A B : Type} (f : A -> list B) (xs : list A) (acc : list B) :
  fold_left (fun acc x => acc ++ f x) xs acc = acc ++ concat (map f xs).
Proof.
  revert acc. induction xs as [|x xs IH]; intros acc; simpl.
  - by rewrite app_nil_r.
  - by rewrite IH, app_assoc.
Qed.

Lemma fold_left_ext {A B : Type} (f g : B -> A -> B) (xs : list A) (acc : B) :
  (forall b a, f b a = g b a) -> fold_left f xs acc = fold_left g xs acc.
Proof.
  intros Hfg. revert acc. induction xs as [|x xs IH]; intros acc; simpl; [done|].
  by rewrite Hfg, IH.
Qed.

Lemma concat_nil_iff {A : Type} (xss : list (list A)) :
  concat xss = [] <-> forall xs, xs ∈ xss -> xs = [].
Proof.
  induction xss as [|xs xss IH]; simpl.
  - split; [intros _ ys Hys; by apply elem_of_nil in Hys | done].
  - split.
    + intros H. apply app_eq_nil in H as [-> H]. intros ys Hys.
      apply elem_of_cons in Hys as [->|Hys]; [done|]. by apply IH.
    + intros H. rewrite (H xs) by apply list_elem_of_here. simpl.
      apply IH. intros ys Hys. apply H. by apply list_elem_of_further.
Qed.

Lemma elem_of_concat_map {A B : Type} (f : A -> list B) (xs : list A) (y : B) :
  y ∈ concat (map f xs) <-> exists x, x ∈ xs /\ y ∈ f x.
Proof.
  rewrite list_elem_of_In, in_concat. split.
  - intros (ys & Hys & Hy). apply in_map_iff in Hys as (x & <- & Hx).
    exists x. by rewrite !list_elem_of_In.
  - intros (x & Hx & Hy). exists (f x). rewrite <- !list_elem_of_In.
    split; [|done]. apply list_elem_of_fmap. by exists x.
Qed.

(** The terms [getRelatedTerms] takes from a detected domain, and the
    synonyms it adds for a keyword. *)
Lemma getRelatedTerms_closed_form (query : string) :
  getRelatedTerms query =
  unique (concat (map domainTerms (domains (processQuery query))) ++
          concat (map synonymsFor (keywords (processQuery query)))).
Proof.
  unfold getRelatedTerms. f_equal.
  rewrite (fold_left_append domainTerms).
  rewrite (fold_left_ext _ (fun acc keyword => acc ++ synonymsFor keyword)).
  - by rewrite fold_left_append.
  - intros acc keyword. unfold synonymsFor.
    rewrite <- (fold_left_append
                  (fun entry => if includes keyword (fst entry) || includes (fst entry) keyword
                                then snd entry else [])).
    apply fold_left_ext. intros acc' [term syns]. simpl.
    destruct (includes keyword term || includes term keyword); [done|].
    by rewrite app_nil_r.
Qed.

Lemma domainTerms_nonempty (domain : string) :
  domain ∈ map fst DOMAIN_KEYWORDS -> domainTerms domain <> [].
Proof.
  intros Hin. unfold DOMAIN_KEYWORDS in Hin. cbn [map fst] in Hin.
  repeat (apply elem_of_cons in Hin as [->|Hin]; [done|]).
  by apply elem_of_nil in Hin.
Qed.

(** Every key of the synonym table is a term of some domain. *)
Lemma synonyms_are_domain_terms (term : string) (syns : list string) :
  (term, syns) ∈ synonyms ->
  exists domain terms, (domain, terms) ∈ DOMAIN_KEYWORDS /\ term ∈ terms.
Proof.
  assert (Forall (fun entry =>
                    existsb (fun d => arrayIncludes (snd d) (fst entry)) DOMAIN_KEYWORDS = true)
                 synonyms) as Hall by (repeat constructor).
  rewrite Forall_forall in Hall. intros Hin. apply Hall in Hin. cbv beta in Hin.
  apply existsb_exists in Hin as ([domain terms] & Hd & Ht). cbn [fst snd] in Ht.
  exists domain, terms. split; [by apply list_elem_of_In | by apply arrayIncludes_elem_of].
Qed.

(** A keyword that matches a key of the synonym table makes a domain score. *)
Lemma synonym_match_detects (query : string) (keywords : list string)
    (keyword term : string) (syns : list string) :
  keyword ∈ keywords -> (term, syns) ∈ synonyms ->
  includes keyword term || includes term keyword = true ->
  exists domain, domain ∈ detectDomains query keywords.
Proof.
  intros Hk Hterm Htest.
  destruct (synonyms_are_domain_terms _ _ Hterm) as (domain & terms & Hd & Ht).
  exists domain. apply detectDomains_elem_of. exists terms. split; [done|].
  unfold statedDomainScore.
  assert (keyword ∈ List.filter
            (fun keyword => existsb (fun term => includes term keyword || includes keyword term)
                                    terms) keywords) as Hin.
  { apply elem_of_filter_bool. split; [done|]. apply existsb_exists.
    exists term. split; [by apply list_elem_of_In | by rewrite orb_comm]. }
  destruct (List.filter _ keywords) as [|x xs]; [by apply elem_of_nil in Hin|].
  simpl length. destruct (includes query domain); lia.
Qed.

(** X9. The related terms are distinct; there are none exactly when no
    domain was detected; and a term is related exactly when it is one of the
    first three terms of a detected domain or a synonym of an entry whose key
    contains a keyword or is contained in one. *)
Theorem getRelatedTerms_empty_iff (query : string) :
  let q := processQuery query in
  NoDup (getRelatedTerms query) /\
  (getRelatedTerms query = [] <-> domains q = []) /\
  (forall term, term ∈ getRelatedTerms query <->
     (exists domain, domain ∈ domains q /\ term ∈ domainTerms domain) \/
     (exists keyword, keyword ∈ keywords q /\ term ∈ synonymsFor keyword)).
Proof.
  intros q. rewrite getRelatedTerms_closed_form. fold q.
  split; [apply uniqueFrom_NoDup|]. split.
  - rewrite unique_nil. split.
    + intros H. apply app_eq_nil in H as [H _].
      destruct (domains q) as [|domain rest] eqn:Hd; [done|]. exfalso.
      simpl in H. apply app_eq_nil in H as [H _]. revert H. apply domainTerms_nonempty.
      assert (domain ∈ domains q) as Hin by (rewrite Hd; apply list_elem_of_here).
      apply detectDomains_elem_of in Hin as (terms & Hin & _).
      apply list_elem_of_fmap. by exists (domain, terms).
    + intros Hd. rewrite Hd. simpl. apply concat_nil_iff. intros xs Hxs.
      apply list_elem_of_fmap in Hxs as (keyword & -> & Hk).
      apply concat_nil_iff. intros ys Hys.
      apply list_elem_of_fmap in Hys as ([term syns] & -> & Hterm). simpl.
      destruct (includes keyword term || includes term keyword) eqn:Htest; [|done].
      destruct (synonym_match_detects (trim (toLowerCase query)) _ _ _ _ Hk Hterm Htest)
        as (domain & Hin).
      change (domain ∈ domains q) in Hin. rewrite Hd in Hin. by apply elem_of_nil in Hin.
  - intros term. by rewrite elem_of_unique, elem_of_app, !elem_of_concat_map.
Qed.

(** ** Suggestions *)

Lemma slice0_nil {A : Type} (xs : list A) (stop : Z) :
  0 < stop -> slice0 xs stop = [] <-> xs = [].
Proof.
  intros Hstop. split; [|intros ->; apply take_nil].
  destruct xs as [|x xs]; [done|]. unfold slice0.
  destruct (stop <? 0) eqn:Hneg; [apply Z.ltb_lt in Hneg; lia|].
  replace (Z.to_nat (Z.min stop (Z.of_nat (length (x :: xs)))))
    with (S (Z.to_nat (Z.min stop (Z.of_nat (length (x :: xs))) - 1)))
    by (simpl length; lia).
  done.
Qed.

Lemma slice0_app_exact {A : Type} (xs ys : list A) :
  slice0 (xs ++ ys) (Z.of_nat (length xs)) = xs.
Proof.
  unfold slice0. destruct (Z.of_nat (length xs) <? 0) eqn:Hneg;
    [apply Z.ltb_lt in Hneg; lia|].
  rewrite length_app, Z.min_l, Nat2Z.id by lia. by rewrite take_app_length.
Qed.

Lemma generateSuggestions_closed_form (query : string) :
  generateSuggestions query =
  slice0 (concat (map (domainSuggestions query) (domains (processQuery query))) ++
          if existsb (fun e => test false fourDigits e) (entities (processQuery query))
          then [] else [query +:+ " in 2023"; query +:+ " since 2015"])
         4.
Proof.
  unfold generateSuggestions. f_equal.
  rewrite (fold_left_ext _ (fun acc domain => acc ++ domainSuggestions query domain)).
  - rewrite fold_left_append.
    match goal with |- context [existsb ?f ?l] => destruct (existsb f l) end;
      cbn [negb app]; [by rewrite app_nil_r | done].
  - intros acc domain. unfold domainSuggestions.
    repeat (destruct (String.eqb domain _); [done|]). by rewrite app_nil_r.
Qed.

Lemma domainSuggestions_nil (query domain : string) :
  domainSuggestions query domain = [] <-> domain ∉ ["labour"; "health"; "housing"].
Proof.
  unfold domainSuggestions. rewrite list_elem_of_In. simpl.
  destruct (String.eqb domain "labour") eqn:H1;
    [apply String.eqb_eq in H1 as ->; split; [done | tauto]|].
  destruct (String.eqb domain "health") eqn:H2;
    [apply String.eqb_eq in H2 as ->; split; [done | tauto]|].
  destruct (String.eqb domain "housing") eqn:H3;
    [apply String.eqb_eq in H3 as ->; split; [done | tauto]|].
  apply String.eqb_neq in H1, H2, H3. split; [|done]. intros _ [?|[?|[?|[]]]]; congruence.
Qed.

(** The year pattern matched exactly the entities that hold four digits:
    no state code and no month name does. *)
Lemma fourDigits_year (query entity : string) :
  allChars (fun c => negb (isUpper c)) query = true ->
  entity ∈ extractEntities query ->
  test false fourDigits entity = true <-> isYear entity.
Proof.
  intros Hlower Hin. apply extractEntities_elements in Hin as [Hocc Hkind].
  pose proof (allChars_occursIn _ _ _ Hocc Hlower) as He.
  rewrite (toLowerCase_of_lower _ He) in Hkind.
  destruct Hkind as [Hstate|[Hmonth|Hyear]].
  - split.
    + intros Htest. exfalso. revert Htest.
      repeat (apply elem_of_cons in Hstate as [->|Hstate]; [done|]).
      by apply elem_of_nil in Hstate.
    + intros (d & Hd & [->| ->]); exfalso;
        repeat (apply elem_of_cons in Hstate as [Hstate|Hstate]; [done|]);
        by apply elem_of_nil in Hstate.
  - split.
    + intros Htest. exfalso. revert Htest.
      repeat (apply elem_of_cons in Hmonth as [->|Hmonth]; [done|]).
      by apply elem_of_nil in Hmonth.
    + intros (d & Hd & [->| ->]); exfalso;
        repeat (apply elem_of_cons in Hmonth as [Hmonth|Hmonth]; [done|]);
        by apply elem_of_nil in Hmonth.
  - split; [done|]. intros _. destruct Hyear as (d & Hd & [->| ->]);
      destruct d as [[] [] [] [] [] [] [] []]; try discriminate Hd; reflexivity.
Qed.

(** X10. [generateSuggestions] answers at most four suggestions, each the
    query followed by one of twelve endings.  It answers none exactly when no
    detected domain is labour, health or housing and an entity is a year.
    When labour is the first detected domain the answer is the four
    suggestions for labour, whatever else was detected. *)
Theorem generateSuggestions_shape (query : string) :
  let q := processQuery query in
  let suggested := generateSuggestions query in
  (length suggested <= 4)%nat /\
  Forall (fun suggestion =>
            exists suffix, suggestion = query +:+ suffix /\
              suffix ∈ [" by state"; " trends"; " by age group"; " and skills";
                        " by region"; " statistics"; " and demographics";
                        " affordability"; " by location"; " and income";
                        " in 2023"; " since 2015"])
         suggested /\
  (suggested = [] <->
   (forall domain, domain ∈ domains q -> domain ∉ ["labour"; "health"; "housing"]) /\
   exists entity, entity ∈ entities q /\ isYear entity) /\
  (forall rest, domains q = "labour" :: rest ->
     suggested = [query +:+ " by state"; query +:+ " trends";
                  query +:+ " by age group"; query +:+ " and skills"]).
Proof.
  intros q suggested. unfold suggested. rewrite generateSuggestions_closed_form. fold q.
  split; [|split; [|split]].
  - pose proof (slice0_length
                  (concat (map (domainSuggestions query) (domains q)) ++
                   (if existsb (fun e => test false fourDigits e) (entities q)
                    then [] else [query +:+ " in 2023"; query +:+ " since 2015"]))
                  4 ltac:(lia)).
    lia.
  - apply Forall_forall. intros suggestion Hin.
    eapply elem_of_sublist in Hin; [|apply slice0_sublist].
    apply elem_of_app in Hin as [Hin|Hin].
    + apply elem_of_concat_map in Hin as (domain & _ & Hin). unfold domainSuggestions in Hin.
      repeat (destruct (String.eqb domain _);
              [repeat (apply elem_of_cons in Hin as [->|Hin];
                       [eexists; split; [done | apply list_elem_of_In; simpl; tauto]|]);
               by apply elem_of_nil in Hin|]).
      by apply elem_of_nil in Hin.
    + destruct (existsb _ _); [by apply elem_of_nil in Hin|].
      repeat (apply elem_of_cons in Hin as [->|Hin];
              [eexists; split; [done | apply list_elem_of_In; simpl; tauto]|]).
      by apply elem_of_nil in Hin.
  - rewrite slice0_nil by lia. split.
    + intros H. apply app_eq_nil in H as [Hd Ht]. split.
      * intros domain Hin. apply (domainSuggestions_nil query).
        rewrite concat_nil_iff in Hd. apply Hd. apply list_elem_of_fmap. by exists domain.
      * destruct (existsb _ (entities q)) eqn:Hex; [|done].
        apply existsb_exists in Hex as (entity & Hin & Htest).
        apply list_elem_of_In in Hin. exists entity. split; [done|].
        by apply (fourDigits_year (trim (toLowerCase query)) entity (normalized_lower query)).
    + intros (Hd & entity & Hin & Hyear).
      assert (concat (map (domainSuggestions query) (domains q)) = []) as ->.
      { apply concat_nil_iff. intros xs Hxs.
        apply list_elem_of_fmap in Hxs as (domain & -> & Hdomain).
        apply domainSuggestions_nil. by apply Hd. }
      assert (existsb (fun e => test false fourDigits e) (entities q) = true) as ->; [|done].
      apply existsb_exists. exists entity. split; [by apply list_elem_of_In|].
      by apply (fourDigits_year (trim (toLowerCase query)) entity (normalized_lower query)).
  - intros rest ->. cbn [map concat]. rewrite <- app_assoc.
    apply (slice0_app_exact [query +:+ " by state"; query +:+ " trends";
                             query +:+ " by age group"; query +:+ " and skills"]).
Qed.

(** ** A word of the query lies in one token *)

Lemma isWord_not_space (c : ascii) : isWord c = true -> isSpace c = false.
Proof. destruct c as [[] [] [] [] [] [] [] []]; by vm_compute. Qed.

Lemma replaceNonWordNonSpace_append (a b : string) :
  replaceNonWordNonSpace (a +:+ b) = replaceNonWordNonSpace a +:+ replaceNonWordNonSpace b.
Proof. induction a as [|c a IH]; [done|]. rewrite append_cons. simpl. by rewrite IH. Qed.

Lemma replaceNonWordNonSpace_word (a : string) :
  allChars isWord a = true -> replaceNonWordNonSpace a = a.
Proof.
  induction a as [|c a IH]; simpl; [done|]. intros H.
  apply andb_true_iff in H as [Hc Ha]. by rewrite Hc, IH.
Qed.

Lemma splitSpacesFrom_nonempty (inRun : bool) (s : string) : splitSpacesFrom inRun s <> [].
Proof.
  revert inRun. induction s as [|c r IH]; intros inRun; simpl; [done|].
  destruct (isSpace c); [destruct inRun; [apply IH | done]|].
  by destruct (splitSpacesFrom false r).
Qed.

(** A text without white space at the front of the input is the front of
    the first piece. *)
Lemma splitSpacesFrom_word (inRun : bool) (word rest : string) :
  allChars isWord word = true -> word <> "" ->
  exists piece pieces,
    splitSpacesFrom inRun (word +:+ rest) = (word +:+ piece) :: pieces.
Proof.
  revert inRun. induction word as [|c word IH]; intros inRun Hword Hne; [done|].
  simpl in Hword. apply andb_true_iff in Hword as [Hc Hword].
  rewrite append_cons. simpl. rewrite (isWord_not_space c Hc).
  destruct word as [|c' word'].
  - rewrite append_nil_l.
    destruct (splitSpacesFrom false rest) as [|piece pieces] eqn:Hrest;
      [by apply splitSpacesFrom_nonempty in Hrest|].
    by exists piece, pieces.
  - destruct (IH false Hword) as (piece & pieces & ->); [done|].
    by exists piece, pieces.
Qed.

Lemma elem_of_consPiece (c : ascii) (pieces : list string) (piece : string) :
  piece ∈ pieces ->
  exists piece', piece' ∈ consPiece c pieces /\ (piece' = piece \/ piece' = String c piece).
Proof.
  destruct pieces as [|first others]; [by intros H; apply elem_of_nil in H|].
  intros Hin. apply elem_of_cons in Hin as [->|Hin]; simpl.
  - exists (String c first). split; [apply list_elem_of_here | by right].
  - exists piece. split; [by apply list_elem_of_further | by left].
Qed.

Lemma includes_cons (c : ascii) (s part : string) :
  includes s part = true -> includes (String c s) part = true.
Proof. intros H. unfold includes; fold includes. rewrite H. apply orb_true_r. Qed.

(** A word that occurs in a text occurs in one of the pieces between its
    white space. *)
Lemma splitSpacesFrom_holds_word (inRun : bool) (before word after : string) :
  allChars isWord word = true -> word <> "" ->
  exists piece, piece ∈ splitSpacesFrom inRun (before +:+ word +:+ after) /\
                includes piece word = true.
Proof.
  intros Hword Hne. revert inRun. induction before as [|c before IH]; intros inRun.
  - rewrite append_nil_l.
    destruct (splitSpacesFrom_word inRun word after Hword Hne) as (piece & pieces & ->).
    exists (word +:+ piece). split; [apply list_elem_of_here|].
    apply includes_prefix, prefix_append.
  - rewrite append_cons. simpl. destruct (isSpace c).
    + destruct (IH true) as (piece & Hin & Hinc). exists piece. split; [|done].
      destruct inRun; [done | by apply list_elem_of_further].
    + destruct (IH false) as (piece & Hin & Hinc).
      destruct (elem_of_consPiece c _ _ Hin) as (piece' & Hin' & [->| ->]).
      * by exists piece.
      * exists (String c piece). split; [done | by apply includes_cons].
Qed.

Lemma tokens_hold_word (query word : string) :
  allChars isWord word = true -> word <> "" ->
  occursIn query word ->
  exists token, token ∈ tokens query /\ includes token word = true.
Proof.
  intros Hword Hne (before & after & ->). unfold tokens.
  rewrite !replaceNonWordNonSpace_append, (replaceNonWordNonSpace_word word Hword).
  by apply splitSpacesFrom_holds_word.
Qed.

Lemma prefix_occurs (part text : string) :
  String.prefix part text = true -> exists rest, text = part +:+ rest.
Proof.
  revert text. induction part as [|c part IH]; intros text.
  - intros _. by exists text.
  - destruct text as [|c' text]; [done|].
    change (String.prefix (String c part) (String c' text))
      with (if ascii_dec c c' then String.prefix part text else false).
    destruct (ascii_dec c c') as [<-|]; [|done].
    intros H. apply IH in H as (rest & ->). by exists rest.
Qed.

Lemma occurs_includes (text part : string) : includes text part = true -> occursIn text part.
Proof.
  induction text as [|c text IH]; unfold includes; fold includes; intros H.
  - rewrite orb_false_r in H. apply prefix_occurs in H as (rest & ->).
    by exists "", rest.
  - apply orb_true_iff in H as [H|H].
    + apply prefix_occurs in H as (rest & ->). by exists "", rest.
    + by apply occursIn_tail, IH.
Qed.

Lemma NoDup_keys_functional {A B : Type} (l : list (A * B)) (x : A) (y1 y2 : B) :
  NoDup (map fst l) -> (x, y1) ∈ l -> (x, y2) ∈ l -> y1 = y2.
Proof.
  induction l as [|[k v] l IH]; simpl; intros Hnodup H1 H2; [by apply elem_of_nil in H1|].
  apply NoDup_cons in Hnodup as [Hk Hnodup].
  apply elem_of_cons in H1 as [H1|H1]; apply elem_of_cons in H2 as [H2|H2].
  - congruence.
  - injection H1 as -> ->. exfalso. apply Hk. apply list_elem_of_fmap. by exists (k, y2).
  - injection H2 as -> ->. exfalso. apply Hk. apply list_elem_of_fmap. by exists (k, y1).
  - by apply IH.
Qed.

(** ** Detection is decided by the keywords *)

(** Every domain is one of its own terms, is a word of six characters or
    more, and lies in no stop word. *)
Lemma domain_names :
  Forall (fun entry =>
            arrayIncludes (snd entry) (fst entry) = true /\
            allChars isWord (fst entry) = true /\
            (6 <= String.length (fst entry))%nat /\
            existsb (fun stop => includes stop (fst entry)) stopWords = false)
         DOMAIN_KEYWORDS.
Proof. repeat constructor. Qed.

Lemma includes_length (text part : string) :
  includes text part = true -> (String.length part <= String.length text)%nat.
Proof.
  intros H. apply occurs_includes in H as (before & after & ->).
  rewrite !length_append. lia.
Qed.

(** A query that names a domain has a keyword that holds the name. *)
Lemma mentioned_domain_keyword (query domain : string) (terms : list string) :
  (domain, terms) ∈ DOMAIN_KEYWORDS -> includes query domain = true ->
  exists keyword, keyword ∈ extractKeywords query /\
                  includes keyword domain = true /\
                  matchesDomainKeyword terms keyword = true.
Proof.
  intros Hentry Hmention.
  pose proof domain_names as Hnames. rewrite Forall_forall in Hnames.
  destruct (Hnames _ Hentry) as (Hown & Hword & Hlen & Hstop). cbn [fst snd] in *.
  destruct (tokens_hold_word query domain Hword) as (token & Htoken & Hholds);
    [by destruct domain | by apply occurs_includes |].
  exists token. split; [|split; [done|]].
  - unfold extractKeywords. rewrite elem_of_unique, elem_of_filter_bool.
    split; [done|]. unfold keepWord. apply andb_true_iff. split.
    + apply Nat.ltb_lt. apply includes_length in Hholds. lia.
    + apply negb_true_iff, not_true_iff_false. intros Hin.
      apply arrayIncludes_elem_of in Hin.
      assert (existsb (fun stop => includes stop domain) stopWords = true) as Hex
        by (apply existsb_exists; exists token; split; [by apply list_elem_of_In | done]).
      congruence.
  - unfold matchesDomainKeyword. apply existsb_exists. exists domain.
    split; [by apply list_elem_of_In, arrayIncludes_elem_of|].
    rewrite Hholds. apply orb_true_r.
Qed.

(** The score of a domain is positive exactly when a keyword matches one
    of its terms: a query that names the domain has such a keyword. *)
Lemma positive_score_iff (text domain : string) (terms : list string) :
  let query := trim (toLowerCase text) in
  let q := processQuery text in
  (domain, terms) ∈ DOMAIN_KEYWORDS ->
  0 < statedDomainScore query (keywords q) domain terms <->
  exists keyword, keyword ∈ keywords q /\ matchesDomainKeyword terms keyword = true.
Proof.
  intros query q Hentry. unfold statedDomainScore. split.
  - intros Hpos. destruct (includes query domain) eqn:Hmention.
    + destruct (mentioned_domain_keyword query domain terms Hentry Hmention)
        as (keyword & Hk & _ & Hmatch). by exists keyword.
    + destruct (List.filter _ (keywords q)) as [|keyword rest] eqn:Hfilter;
        [simpl in Hpos; lia|].
      assert (keyword ∈ List.filter
                (fun keyword =>
                   existsb (fun term => includes term keyword || includes keyword term)
                           terms) (keywords q)) as Hin
        by (rewrite Hfilter; apply list_elem_of_here).
      apply elem_of_filter_bool in Hin as [Hk Hmatch]. by exists keyword.
  - intros (keyword & Hk & Hmatch).
    assert (keyword ∈ List.filter
              (fun keyword =>
                 existsb (fun term => includes term keyword || includes keyword term)
                         terms) (keywords q)) as Hin
      by (by apply elem_of_filter_bool).
    destruct (List.filter _ (keywords q)); [by apply elem_of_nil in Hin|].
    simpl length. destruct (includes query domain); lia.
Qed.

Lemma detection_nonempty (text : string) :
  domains (processQuery text) <> [] -> keywords (processQuery text) <> [].
Proof.
  intros Hdomains Hkeywords.
  destruct (domains (processQuery text)) as [|domain rest] eqn:Hd; [done|].
  assert (domain ∈ detectDomains (trim (toLowerCase text)) (keywords (processQuery text)))
    as Hin
    by (change (detectDomains (trim (toLowerCase text)) (keywords (processQuery text)))
          with (domains (processQuery text));
        rewrite Hd; apply list_elem_of_here).
  apply detectDomains_elem_of in Hin as (terms & Hentry & Hpos).
  apply (positive_score_iff text domain terms Hentry) in Hpos as (keyword & Hk & _).
  rewrite Hkeywords in Hk. by apply elem_of_nil in Hk.
Qed.

(** X8. A domain is detected exactly when a keyword of the query matches
    one of its terms: a query that names a domain has a keyword that holds
    the name, so the 2 points for naming a domain never decide detection and
    a named domain scores 3 or more.  Hence a query with a detected domain
    has a keyword. *)
Theorem detection_is_decided_by_keywords (text : string) :
  let query := trim (toLowerCase text) in
  let q := processQuery text in
  (forall domain terms, (domain, terms) ∈ DOMAIN_KEYWORDS ->
     (domain ∈ domains q <->
      exists keyword, keyword ∈ keywords q /\ matchesDomainKeyword terms keyword = true) /\
     (includes query domain = true -> 3 <= domainScore query (keywords q) domain terms)) /\
  (domains q <> [] -> keywords q <> []).
Proof.
  intros query q. split; [|apply detection_nonempty].
  intros domain terms Hentry. split.
  - pose proof (positive_score_iff text domain terms Hentry) as Hscore.
    cbv zeta in Hscore. fold query q in Hscore. rewrite <- Hscore.
    change (domains q) with (detectDomains query (keywords q)).
    rewrite detectDomains_elem_of. split.
    + intros (terms' & Hentry' & Hpos).
      by rewrite <- (NoDup_keys_functional _ _ _ _ DOMAIN_KEYWORDS_NoDup Hentry' Hentry).
    + intros Hpos. by exists terms.
  - intros Hmention. rewrite domainScore_stated. unfold statedDomainScore.
    rewrite Hmention.
    destruct (mentioned_domain_keyword query domain terms Hentry Hmention)
      as (keyword & Hk & _ & Hmatch).
    assert (keyword ∈ List.filter
              (fun keyword =>
                 existsb (fun term => includes term keyword || includes keyword term)
                         terms) (keywords q)) as Hin
      by (by apply elem_of_filter_bool).
    destruct (List.filter _ (keywords q)); [by apply elem_of_nil in Hin|].
    simpl length. lia.
Qed.

End InterpreterFacts.

(* ================================================================== *)
(** * Facts about the search handler as a whole *)
(* ================================================================== *)

Module SearchHandlerFacts.
Import JS Schema Search SearchHandler Notions JSFacts SearchFacts InterpreterFacts.

Lemma moreRelevantFirst_asym a b :
  moreRelevantFirst a b = true -> moreRelevantFirst b a = false.
Proof. unfold moreRelevantFirst. rewrite Z.ltb_lt, Z.ltb_ge. lia. Qed.

Lemma moreRelevantFirst_negtrans a b c :
  moreRelevantFirst a b = false -> moreRelevantFirst b c = false ->
  moreRelevantFirst a c = false.
Proof. unfold moreRelevantFirst. rewrite !Z.ltb_ge. lia. Qed.

Lemma ranked_sorted (processed : list ProcessedDataset) :
  StronglySorted (fun a b => relevanceScore b <= relevanceScore a)
                 (sortZ (fun a b => relevanceScore b - relevanceScore a) processed).
Proof.
  pose proof (sortBy_sorted moreRelevantFirst moreRelevantFirst_asym
                moreRelevantFirst_negtrans processed) as Hsorted.
  change (sortZ (fun a b => relevanceScore b - relevanceScore a) processed)
    with (sortBy moreRelevantFirst processed).
  induction Hsorted as [|a l Hl IH Ha]; constructor; [done|].
  eapply Forall_impl; [exact Ha|]. intros b Hb. unfold inOrder, moreRelevantFirst in Hb.
  apply Z.ltb_ge in Hb. lia.
Qed.

Section Handler.
Variable JSON_parse : jsonParser.
Context {Store : Type}.
Variable prisma : PrismaClient Store.

Lemma truthy_Some (param : option string) (text : string) :
  truthy param = Some text <-> param = Some text /\ text <> "".
Proof.
  unfold truthy. destruct param as [t|]; [|split; [done | by intros [? _]]].
  destruct (String.eqb t "") eqn:Ht.
  - apply String.eqb_eq in Ht as ->. split; [done | by intros [[= <-] ?]].
  - apply String.eqb_neq in Ht. split; [by intros [= ->] | by intros [[= ->] _]].
Qed.

(** The handler, once the query is known not to be empty. *)
Lemma GET_cases (q domain agency : option string) (store : Store) (text : string) :
  truthy q = Some text ->
  let processedQuery := processedQuery (interpret text) in
  let ranked rows :=
    sortZ (fun a b => relevanceScore b - relevanceScore a)
          (map (processDataset JSON_parse text processedQuery) rows) in
  GET JSON_parse prisma q domain agency store =
  match findMany prisma (whereConditionsFor text processedQuery domain agency) 20 store with
  | Ok rows =>
      match createSearchQuery prisma text (Z.of_nat (length (ranked rows))) store with
      | Ok store' =>
          (Found {| query := text;
                    results := ranked rows;
                    total := Z.of_nat (length (ranked rows));
                    nlp := interpret text |},
           store')
      | Throw _ => (InternalError "Internal server error", store)
      end
  | Throw _ => (InternalError "Internal server error", store)
  end.
Proof.
  intros Hq. unfold GET. rewrite Hq. cbv zeta.
  destruct (findMany prisma _ 20 store) as [rows|e]; [|done]. run_bind.
  by destruct (createSearchQuery prisma text _ store).
Qed.

Lemma ranked_length (query : string) processedQuery (rows : list FoundDataset) :
  length (sortZ (fun a b => relevanceScore b - relevanceScore a)
                (map (processDataset JSON_parse query processedQuery) rows)) = length rows.
Proof.
  unfold sortZ. by rewrite (Permutation_length (sortBy_perm _ _)), length_map.
Qed.

(** X11. When the search handler answers 200, the query was not empty, the
    store answered the conditions built from the query, its interpretation
    and the two filters, and the results are the processed rows of that
    answer, sorted by falling relevance score with rows of equal score in the
    order of the store; the total is their number, and the search was logged
    with that total. *)
Theorem search_results_ranked (q domain agency : option string) (store : Store)
    (body : SearchResults) (store' : Store) :
  GET JSON_parse prisma q domain agency store = (Found body, store') ->
  rankedAnswer JSON_parse prisma q domain agency store body store'.
Proof.
  intros HGET. destruct (truthy q) as [text|] eqn:Hq;
    [|by unfold GET in HGET; rewrite Hq in HGET].
  rewrite (GET_cases _ _ _ _ _ Hq) in HGET. cbv zeta in HGET.
  apply truthy_Some in Hq as [-> Hne].
  destruct (findMany prisma _ 20 store) as [rows|e] eqn:Hrows; [|done].
  destruct (createSearchQuery prisma text _ store) as [after|e] eqn:Hlog; [|done].
  injection HGET as <- <-. exists text, rows. cbn [query nlp results total].
  rewrite ranked_length in *. repeat split; try done.
  - apply sortBy_perm.
  - apply ranked_sorted.
  - intros a b Hab Hle. apply (sortBy_stable moreRelevantFirst); [done|].
    unfold moreRelevantFirst. apply Z.ltb_ge. lia.
Qed.

(** X12. The search handler answers 400 for a missing or empty query and
    leaves the store as it is.  Otherwise it answers 500, the store left as it
    is, when the store rejects the query for datasets or the logging of the
    search, and 200 with one result for each row when both succeed: text in a
    row that is no JSON never fails a search. *)
Theorem search_status (q domain agency : option string) (store : Store) :
  let answer := GET JSON_parse prisma q domain agency store in
  ((q = None \/ q = Some "") -> answer = (BadRequest "Query parameter is required", store)) /\
  (forall text, q = Some text -> text <> "" ->
     let processedQuery := processedQuery (interpret text) in
     let asked := findMany prisma (whereConditionsFor text processedQuery domain agency) 20 store in
     (forall e, asked = Throw e -> answer = (InternalError "Internal server error", store)) /\
     (forall rows e, asked = Ok rows ->
        createSearchQuery prisma text (Z.of_nat (length rows)) store = Throw e ->
        answer = (InternalError "Internal server error", store)) /\
     (forall rows store', asked = Ok rows ->
        createSearchQuery prisma text (Z.of_nat (length rows)) store = Ok store' ->
        exists body, answer = (Found body, store') /\
                     total body = Z.of_nat (length rows) /\
                     length (results body) = length rows)).
Proof.
  intros answer. split.
  - intros [-> | ->]; reflexivity.
  - intros text -> Hne. assert (truthy (Some text) = Some text) as Hq
      by (by apply truthy_Some).
    unfold answer. rewrite (GET_cases _ _ _ _ _ Hq). cbv zeta.
    split; [|split].
    + by intros e ->.
    + intros rows e -> Hlog. by rewrite ranked_length, Hlog.
    + intros rows store' -> Hlog. rewrite ranked_length, Hlog.
      eexists. split; [done|]. cbn [total results]. by rewrite ranked_length.
Qed.


(** X22. The relevance score does not depend on the case of the query: the
    query in lower case extracts the same keywords, and gives every row the
    same score and the same processed row as the query itself. *)
Theorem relevance_ignores_case (text : string) (dataset : FoundDataset) :
  processDataset JSON_parse (toLowerCase text) (Nlp.processQuery (toLowerCase text)) dataset
  = processDataset JSON_parse text (Nlp.processQuery text) dataset /\
  (forall searchTerms,
     calculateRelevanceScore JSON_parse (found dataset) (toLowerCase text) searchTerms
     = calculateRelevanceScore JSON_parse (found dataset) text searchTerms) /\
  Nlp.keywords (Nlp.processQuery (toLowerCase text)) = Nlp.keywords (Nlp.processQuery text).
Proof.
  assert (Nlp.keywords (Nlp.processQuery (toLowerCase text))
          = Nlp.keywords (Nlp.processQuery text)) as Hkeywords.
  { unfold Nlp.processQuery. cbn [Nlp.keywords]. by rewrite toLowerCase_idem. }
  assert (forall searchTerms,
            calculateRelevanceScore JSON_parse (found dataset) (toLowerCase text) searchTerms
            = calculateRelevanceScore JSON_parse (found dataset) text searchTerms) as Hscore.
  { intros searchTerms. unfold calculateRelevanceScore. by rewrite toLowerCase_idem. }
  split; [|by split].
  unfold processDataset. by rewrite Hkeywords, Hscore.
Qed.

End Handler.

Lemma search_results_ranked_witness :
  rankedAnswer JsonText.parse memoryClient (Some "labour force") None None
               exampleStore exampleBody (snd exampleResponse).
Proof. apply search_results_ranked. vm_compute. reflexivity. Defined.

Example exampleBody_ranking :
  map (fun p => (id (found (source p)), relevanceScore p)) (results exampleBody)
  = [("lf", 210); ("participation", 50); ("wages", 1)] /\
  searchLog (snd exampleResponse) = [("labour force", 3)].
Proof. by vm_compute. Qed.

End SearchHandlerFacts.

(* ================================================================== *)
(** * More facts about the recommendation engine *)
(* ================================================================== *)

Module EngineFacts.
Import JS Schema Recommendations MemoryStore Notions EngineNotions Examples EngineExamples.
Import JSFacts RecommendationFacts.

(** ** Sorting a sorted list, and the like *)

Lemma sortBy_of_sorted {A : Type} (before : A -> A -> bool) (l : list A) :
  StronglySorted (inOrder before) l -> sortBy before l = l.
Proof.
  induction 1 as [|x l Hl IH Hx]; simpl; [done|]. rewrite IH.
  destruct l as [|y rest]; simpl; [done|].
  apply Forall_cons_1 in Hx as [Hy _]. unfold inOrder in Hy. by rewrite Hy.
Qed.

Lemma keepFirst_of_NoDup (seen : list string) (recs : list DatasetRecommendation) :
  NoDup (map recommendedId recs) ->
  (forall rec, rec ∈ recs -> recommendedId rec ∉ seen) ->
  keepFirst seen recs = recs.
Proof.
  revert seen. induction recs as [|rec recs IH]; intros seen Hnodup Hseen; simpl; [done|].
  apply NoDup_cons in Hnodup as [Hrec Hnodup].
  destruct (arrayIncludes seen (recommendedId rec)) eqn:Hin.
  - apply arrayIncludes_elem_of in Hin. by apply Hseen in Hin; [|apply list_elem_of_here].
  - f_equal. apply IH; [done|]. intros rec' Hrec'. apply not_elem_of_cons. split.
    + intros Heq. apply Hrec. rewrite <- Heq. apply list_elem_of_fmap. by exists rec'.
    + apply Hseen. by apply list_elem_of_further.
Qed.

Lemma slice0_all {A : Type} (xs : list A) (stop : Z) :
  Z.of_nat (length xs) <= stop -> slice0 xs stop = xs.
Proof.
  intros Hlen. unfold slice0.
  destruct (stop <? 0) eqn:Hneg; [apply Z.ltb_lt in Hneg; lia|].
  rewrite Z.min_r, Nat2Z.id by lia. apply firstn_all.
Qed.

Lemma filter_bool_ext {A : Type} (p q : A -> bool) (l : list A) :
  (forall x, p x = q x) -> List.filter p l = List.filter q l.
Proof. intros Hpq. induction l as [|x l IH]; simpl; [done|]. by rewrite Hpq, IH. Qed.

(** ** Loops that throw *)


Section Engine.
Variables (JSON_parse : jsonParser) (prisma : PrismaClient).

(** ** Similarity *)



(** ** The agency step has no guard that works *)


(** ** What stays of the direct relationships *)

(** The candidates of [getRelatedRecommendations] begin with the direct
    relationships. *)
Lemma collectRelated_direct_first (datasetId : string) (seed : CurrentDataset)
    (candidates : list DatasetRecommendation) :
  collectRelated JSON_parse prisma datasetId seed = Ok candidates ->
  exists others, candidates = directRecommendations JSON_parse seed ++ others.
Proof.
  unfold collectRelated. simpl.
  destruct (domainRecommendations _ _ _ _ _) as [recs|e] eqn:Hdomain; run_bind;
    [|by intros [=]].
  destruct (agencyRecommendations _ _ _ _ _) as [recs'|e] eqn:Hagency; run_bind;
    [|by intros [=]].
  intros [= <-].
  assert (exists added, recs = directRecommendations JSON_parse seed ++ added)
    as (added & ->).
  { revert Hdomain. unfold domainRecommendations.
    destruct (parseOrEmpty JSON_parse (domains (current seed))) as [[|primary rest]|e];
      run_bind; [| |by intros [=]].
    - intros [= <-]. exists []. by rewrite app_nil_r.
    - destruct (findManyInDomainExcept prisma datasetId primary 10) as [rows|e];
        run_bind; [|by intros [=]].
      apply (forEach_invariant
               (fun recs => exists added,
                    recs = directRecommendations JSON_parse seed ++ added)).
      + exists []. by rewrite app_nil_r.
      + intros recs0 d recs1 (added & ->) _.
        destruct (calculateSimilarity JSON_parse (current seed) d) as [sim|e];
          run_bind; [|by intros [=]].
        destruct (Qle_bool sim 0.3); [intros [= <-]; by exists added|].
        destruct (parseOrEmpty JSON_parse (keywords d)); run_bind; [|by intros [=]].
        destruct (parseOrEmpty JSON_parse (domains d)); run_bind; [|by intros [=]].
        intros [= <-]. eexists. by rewrite <- app_assoc. }
  revert Hagency. unfold agencyRecommendations.
  destruct (findManyOfAgencyExcept prisma datasetId _ 5) as [rows|e];
    run_bind; [|by intros [=]].
  apply (forEach_invariant
           (fun recs => exists others,
                recs = directRecommendations JSON_parse seed ++ others)).
  - by exists added.
  - intros recs0 d recs1 (others & ->) _.
    destruct (calculateSimilarity JSON_parse (current seed) d) as [sim|e];
      run_bind; [|by intros [=]].
    intros [= <-]. eexists. by rewrite <- app_assoc.
Qed.

(** X15. A recommendation of [getRelatedRecommendations] for a dataset
    that a direct relationship of the seed points to is the one the direct
    step made: its type is [related] and its score 1, also when the domain or
    the agency step found the same dataset. *)
Theorem direct_relations_keep_their_label (datasetId : string) (limit : option Z)
    (seed : CurrentDataset) (final : list DatasetRecommendation) :
  findUnique prisma datasetId = Ok (Some seed) ->
  getRelatedRecommendations JSON_parse prisma datasetId limit = Ok final ->
  Forall (fun rec =>
            recommendedId rec ∈
              map (fun r => id (included r)) (relatedFrom seed ++ relatedTo seed) ->
            rec ∈ directRecommendations JSON_parse seed /\
            type rec = TypeRelated /\ score rec = 1.0%Q)
         final.
Proof.
  intros Hseed Hfinal.
  apply getRelatedRecommendations_cases in Hfinal
    as [[Hnone _]|(seed' & candidates & Hseed' & Hcandidates & ->)]; [congruence|].
  assert (seed' = seed) as -> by congruence.
  apply collectRelated_direct_first in Hcandidates as (others & ->).
  destruct (uniqueRecommendations_mergedFrom
              (directRecommendations JSON_parse seed ++ others) (default 5 limit))
    as (_ & _ & _ & Hfirst).
  apply Forall_forall. intros rec Hrec Hdirect.
  apply Hfirst in Hrec as (_ & front & back & Hsplit & Hearlier).
  assert (rec ∈ directRecommendations JSON_parse seed) as Hin.
  { apply list_elem_of_fmap in Hdirect as (r & Hid & Hr).
    assert (directRecommendation JSON_parse r ∈ directRecommendations JSON_parse seed)
      as Hr'.
    { rewrite directRecommendations_map. apply list_elem_of_fmap. by exists r. }
    apply app_eq_app in Hsplit as [l [[Hd Hb]|[Hf Ho]]].
    - destruct l as [|x l].
      + rewrite app_nil_r in Hd. rewrite Hd in Hr'.
        apply Hearlier in Hr'. by rewrite Hid in Hr'.
      + injection Hb as <- _. rewrite Hd. apply elem_of_app. right.
        apply list_elem_of_here.
    - assert (directRecommendation JSON_parse r ∈ front) as Hfront
        by (rewrite Hf; apply elem_of_app; by left).
      apply Hearlier in Hfront. by rewrite Hid in Hfront. }
  split; [done|]. rewrite directRecommendations_map in Hin.
  by apply list_elem_of_fmap in Hin as (r & -> & _).
Qed.

(** ** One seed *)

(** An answer of [getRelatedRecommendations] holds no dataset twice, is
    sorted by falling score and, under a limit that is not negative, is no
    longer than the limit. *)
Lemma getRelatedRecommendations_merged (datasetId : string) (limit : Z)
    (final : list DatasetRecommendation) :
  getRelatedRecommendations JSON_parse prisma datasetId (Some limit) = Ok final ->
  NoDup (map recommendedId final) /\
  StronglySorted (inOrder higherScoreFirst) final /\
  (0 <= limit -> Z.of_nat (length final) <= limit).
Proof.
  intros Hfinal. split; [|split].
  - apply getRelatedRecommendations_cases in Hfinal
      as [[_ ->]|(seed & candidates & _ & _ & ->)]; [constructor|].
    by destruct (uniqueRecommendations_mergedFrom candidates (default 5 (Some limit)))
      as (H & _).
  - apply getRelatedRecommendations_cases in Hfinal
      as [[_ ->]|(seed & candidates & _ & _ & ->)]; [constructor|].
    destruct (uniqueRecommendations_mergedFrom candidates (default 5 (Some limit)))
      as (_ & Hsorted & _).
    induction Hsorted as [|a l Hl IH Ha]; constructor; [done|].
    eapply Forall_impl; [exact Ha|]. intros b Hb. by apply higherScoreFirst_false.
  - intros Hlimit. by eapply getRelatedRecommendations_length.
Qed.

(** X16. For a single seed, [getComplementaryDatasets] answers the two
    best related recommendations of the seed, in their order, without the
    seed itself; it throws when [getRelatedRecommendations] does. *)
Theorem complementary_single_seed (seedId : string) :
  getComplementaryDatasets JSON_parse prisma [seedId] =
  (relatedOnes ← getRelatedRecommendations JSON_parse prisma seedId (Some 2);
   mret (List.filter (fun rec => negb (String.eqb (recommendedId rec) seedId)) relatedOnes)).
Proof.
  unfold getComplementaryDatasets, collectComplementary. simpl.
  destruct (getRelatedRecommendations JSON_parse prisma seedId (Some 2))
    as [relatedOnes|e] eqn:Hrelated; run_bind; [|done].
  f_equal.
  apply getRelatedRecommendations_merged in Hrelated as (Hnodup & Hsorted & Hlen).
  set (keep := fun rec : DatasetRecommendation =>
                 negb (arrayIncludes [seedId] (id (row (dataset rec))))).
  change (fun rec index =>
            isFirstOfItsDataset relatedOnes rec index &&
            negb (arrayIncludes [seedId] (id (row (dataset rec)))))
    with (fun rec index => isFirstOfItsDataset relatedOnes rec index && keep rec).
  unfold filterIndexed. rewrite filterIndexedFrom_and.
  change (filterIndexedFrom (isFirstOfItsDataset relatedOnes) 0 relatedOnes)
    with (filterIndexed (isFirstOfItsDataset relatedOnes) relatedOnes).
  rewrite filterIndexed_keepFirst, keepFirst_of_NoDup;
    [|done|intros rec _ H; by apply elem_of_nil in H].
  unfold sortQ. change (fun a b => Qnum (byScoreDescending a b) <? 0) with higherScoreFirst.
  rewrite sortBy_of_sorted
    by (eapply StronglySorted_sublist; [apply filter_bool_sublist | done]).
  rewrite slice0_all.
  - apply filter_bool_ext. intros rec. unfold keep, arrayIncludes. simpl.
    by rewrite orb_false_r.
  - pose proof (sublist_length _ _ (filter_bool_sublist keep relatedOnes)).
    specialize (Hlen ltac:(lia)).
    change (Z.of_nat (length (List.filter keep relatedOnes)) <= 5). lia.
Qed.

(** ** The kinds of search recommendations *)



End Engine.


Lemma direct_relations_keep_their_label_witness :
  Forall (fun rec =>
            recommendedId rec ∈
              map (fun r => id (included r))
                  (relatedFrom labourForceFound ++ relatedTo labourForceFound) ->
            rec ∈ directRecommendations JsonText.parse labourForceFound /\
            type rec = TypeRelated /\ score rec = 1.0%Q)
         seedRelatedAnswer.
Proof.
  apply (direct_relations_keep_their_label JsonText.parse (client seedStore) "lf" None
           labourForceFound seedRelatedAnswer); reflexivity.
Defined.

(** Over the seed store the aged care workforce collection is related to the
    labour force survey and shares its domain: it is recommended once, as
    related. *)
Example seedRelatedAnswer_kinds :
  map (fun rec => (recommendedId rec, type rec)) seedRelatedAnswer
  = [("acw", TypeRelated); ("census", TypeAgency)].
Proof. reflexivity. Qed.


End EngineFacts.

(* ================================================================== *)
(** * Facts about the recommendations handler *)
(* ================================================================== *)

Module RecommendationsRouteFacts.
Import JS Schema Recommendations RecommendationsRoute MemoryStore Notions Examples EngineExamples.
Import JSFacts RecommendationFacts.

Lemma consPiece_nonempty (c : ascii) (pieces : list string) : consPiece c pieces <> [].
Proof. by destruct pieces. Qed.

(** [split] never answers the empty array. *)
Lemma splitChar_nonempty (sep : ascii) (s : string) : splitChar sep s <> [].
Proof.
  destruct s as [|c r]; simpl; [done|].
  destruct (Ascii.eqb c sep); [done | apply consPiece_nonempty].
Qed.

Section Handler.
Variables (JSON_parse : jsonParser) (prisma : PrismaClient).

(** X18. For the type [trending] the handler wraps each recommendation of
    [getTrendingDatasets] in an entry with the score 0.5 and the reason
    "Trending dataset": the score by relationships is not the score of the
    entry.  It answers 500 when [getTrendingDatasets] throws. *)
Theorem trending_scores_are_flat (datasetId query domains keywords datasetIds : option string)
    (limit : Z) :
  let response :=
    GET JSON_parse prisma (Some "trending") datasetId query domains keywords datasetIds limit in
  (forall trending,
     getTrendingDatasets JSON_parse prisma (Some limit) = Ok trending ->
     exists body,
       response = Answered body /\
       answeredType body = "trending" /\
       map held (recommendations body) = trending /\
       Forall (fun entry => shownScore entry = 0.5%Q) (recommendations body) /\
       total body = Z.of_nat (length trending)) /\
  (forall e,
     getTrendingDatasets JSON_parse prisma (Some limit) = Throw e ->
     response = InternalError "Internal server error").
Proof.
  intros response. unfold response, GET. simpl. split.
  - intros trending ->. run_bind. eexists. split; [reflexivity|]. simpl.
    rewrite length_map, map_map, map_id. repeat split.
    apply Forall_forall. intros entry Hentry.
    by apply list_elem_of_fmap in Hentry as (rec & -> & _).
  - by intros e ->.
Qed.

(** X19. The recommendations handler answers 400 for a missing or unknown
    type, for [related] without a dataset id and for [complementary] without
    the parameter [datasetIds].  With that parameter, even empty, the list of
    ids is not empty, and the answer is that of [getComplementaryDatasets], or
    500 when it throws.  Every answer with status 200 names the type asked
    for and counts its entries. *)
Theorem recommendations_bad_requests
    (type datasetId query domains keywords datasetIds : option string) (limit : Z) :
  let response :=
    GET JSON_parse prisma type datasetId query domains keywords datasetIds limit in
  (type ∉ [Some "related"; Some "search"; Some "trending"; Some "complementary"] ->
   response = BadRequest "Invalid recommendation type") /\
  (type = Some "related" -> datasetId = None \/ datasetId = Some "" ->
   response = BadRequest "datasetId is required for related recommendations") /\
  (type = Some "complementary" -> datasetIds = None ->
   response = BadRequest "datasetIds are required for complementary recommendations") /\
  (type = Some "complementary" -> forall text, datasetIds = Some text ->
   splitChar "," text <> [] /\
   response =
   match getComplementaryDatasets JSON_parse prisma (splitChar "," text) with
   | Ok recommendations => answer "complementary" (map Plain recommendations)
   | Throw _ => InternalError "Internal server error"
   end) /\
  (forall body, response = Answered body ->
     type = Some (answeredType body) /\
     total body = Z.of_nat (length (recommendations body))).
Proof.
  intros response. unfold response, GET. split; [|split; [|split; [|split]]].
  - intros Hnot. destruct type as [t|]; [|done].
    repeat (destruct (String.eqb t _) eqn:E;
            [apply String.eqb_eq in E as ->; exfalso; apply Hnot;
             apply list_elem_of_In; simpl; tauto|]; clear E).
    done.
  - by intros -> [-> | ->].
  - by intros -> ->.
  - intros -> text ->. split; [apply splitChar_nonempty|]. simpl.
    destruct (splitChar "," text) as [|datasetId' rest] eqn:Hsplit;
      [by apply splitChar_nonempty in Hsplit|].
    by destruct (getComplementaryDatasets JSON_parse prisma (datasetId' :: rest)).
  - intros body. destruct type as [t|]; [|done].
    destruct (String.eqb t "related") eqn:E1.
    { apply String.eqb_eq in E1 as ->. destruct (orUndefined datasetId); [|done].
      destruct (getRelatedRecommendations _ _ _ _); run_bind; [|done].
      by intros [= <-]. }
    destruct (String.eqb t "search") eqn:E2.
    { apply String.eqb_eq in E2 as ->.
      destruct (getSearchRecommendations _ _ _ _); run_bind; [|done].
      by intros [= <-]. }
    destruct (String.eqb t "trending") eqn:E3.
    { apply String.eqb_eq in E3 as ->.
      destruct (getTrendingDatasets _ _ _); run_bind; [|done].
      by intros [= <-]. }
    destruct (String.eqb t "complementary") eqn:E4; [|done].
    apply String.eqb_eq in E4 as ->.
    destruct (splitAtCommas datasetIds) as [[|first rest]|]; try done.
    destruct (getComplementaryDatasets _ _ _); run_bind; [|done].
    by intros [= <-].
Qed.



End Handler.


End RecommendationsRouteFacts.

(* ================================================================== *)
(** * From the page to the engine *)
(* ================================================================== *)

Module DataDiscoveryAppFacts.
Import JS Schema Notions TextNotions JSFacts TextFacts NlpFacts InterpreterFacts.
Import Recommendations RecommendationsRoute DataDiscoveryApp.

Lemma splitChar_clean (sep : ascii) (x : string) :
  allChars (fun c => negb (Ascii.eqb c sep)) x = true -> splitChar sep x = [x].
Proof.
  induction x as [|c x IH]; simpl; [done|]. intros H.
  apply andb_true_iff in H as [Hc Hx]. apply negb_true_iff in Hc.
  by rewrite Hc, (IH Hx).
Qed.

Lemma splitChar_clean_then (sep : ascii) (x rest : string) :
  allChars (fun c => negb (Ascii.eqb c sep)) x = true ->
  splitChar sep (x +:+ String sep rest) = x :: splitChar sep rest.
Proof.
  induction x as [|c x IH]; intros H.
  - rewrite append_nil_l. simpl. by rewrite Ascii.eqb_refl.
  - rewrite append_cons. simpl in *. apply andb_true_iff in H as [Hc Hx].
    apply negb_true_iff in Hc. by rewrite Hc, (IH Hx).
Qed.

(** Splitting what was joined gives the list back, when the list is not
    empty and no element holds the separator. *)
Lemma splitChar_join (sep : ascii) (xs : list string) :
  xs <> [] ->
  Forall (fun x => allChars (fun c => negb (Ascii.eqb c sep)) x = true) xs ->
  splitChar sep (join (String sep "") xs) = xs.
Proof.
  intros Hne Hclean. induction Hclean as [|x xs Hx Hxs IH]; [done|].
  destruct xs as [|y ys].
  - by apply splitChar_clean.
  - change (join (String sep "") (x :: y :: ys))
      with (x +:+ String sep "" +:+ join (String sep "") (y :: ys)).
    change (String sep "" +:+ join (String sep "") (y :: ys))
      with (String sep (join (String sep "") (y :: ys))).
    rewrite splitChar_clean_then by done. by rewrite IH.
Qed.

Lemma word_without_comma (s : string) :
  allChars isWord s = true -> allChars (fun c => negb (Ascii.eqb c ",")) s = true.
Proof.
  apply allChars_impl. intros c Hc. apply negb_true_iff, Ascii.eqb_neq.
  by intros ->.
Qed.

Section Handler.
Variables (JSON_parse : jsonParser) (prisma : PrismaClient).

(** X20. When a search detected a domain, the request for recommendations
    that the page sends hands the engine the domains and the keywords of the
    interpretation as they are: joining them with commas and splitting them
    in the handler gives both lists back, and the handler answers with
    [getSearchRecommendations] for that context under the limit 5. *)
Theorem recommendations_after_search (text : string) :
  let q := Nlp.processQuery text in
  Nlp.domains q <> [] ->
  exists params,
    recParams q = Some params /\
    splitAtCommas (Some (domains params)) = Some (Nlp.domains q) /\
    splitAtCommas (Some (keywords params)) = Some (Nlp.keywords q) /\
    GET JSON_parse prisma (Some (type params)) None None
        (Some (domains params)) (Some (keywords params)) None 5 =
    match getSearchRecommendations JSON_parse prisma
            {| currentDataset := None;
               searchQuery := None;
               contextDomains := Some (Nlp.domains q);
               contextKeywords := Some (Nlp.keywords q);
               userHistory := None |}
            (Some 5) with
    | Ok recommendations => answer "search" (map Plain recommendations)
    | Throw _ => InternalError "Internal server error"
    end.
Proof.
  intros q Hdomains.
  assert (splitChar "," (join "," (Nlp.domains q)) = Nlp.domains q) as Hd.
  { apply splitChar_join; [done|]. apply Forall_forall. intros domain Hin.
    apply word_without_comma.
    change (Nlp.domains q)
      with (Nlp.detectDomains (trim (toLowerCase text)) (Nlp.keywords q)) in Hin.
    apply detectDomains_elem_of in Hin as (terms & Hentry & _).
    pose proof domain_names as Hnames. rewrite Forall_forall in Hnames.
    by destruct (Hnames _ Hentry) as (_ & Hword & _). }
  assert (splitChar "," (join "," (Nlp.keywords q)) = Nlp.keywords q) as Hk.
  { apply splitChar_join.
    - by apply (detection_nonempty text).
    - eapply Forall_impl; [apply (extractKeywords_words (trim (toLowerCase text)))|].
      intros keyword Hword. by apply word_without_comma. }
  exists {| type := "search";
            domains := join "," (Nlp.domains q);
            keywords := join "," (Nlp.keywords q) |}.
  split; [|split; [|split]].
  - unfold recParams.
    assert ((0 <? length (Nlp.domains q))%nat = true) as ->; [|done].
    by destruct (Nlp.domains q).
  - change (Some (splitChar "," (join "," (Nlp.domains q))) = Some (Nlp.domains q)).
    by rewrite Hd.
  - change (Some (splitChar "," (join "," (Nlp.keywords q))) = Some (Nlp.keywords q)).
    by rewrite Hk.
  - unfold GET.
    change (splitAtCommas (Some (domains _)))
      with (Some (splitChar "," (join "," (Nlp.domains q)))).
    change (splitAtCommas (Some (keywords _)))
      with (Some (splitChar "," (join "," (Nlp.keywords q)))).
    rewrite Hd, Hk. cbn [type String.eqb Ascii.eqb Bool.eqb orUndefined].
    by destruct (getSearchRecommendations _ _ _ _).
Qed.

End Handler.

Lemma recommendations_after_search_witness :
  exists params,
    recParams (Nlp.processQuery "Employment by state") = Some params /\
    splitAtCommas (Some (domains params))
    = Some (Nlp.domains (Nlp.processQuery "Employment by state")) /\
    splitAtCommas (Some (keywords params))
    = Some (Nlp.keywords (Nlp.processQuery "Employment by state")) /\
    GET JsonText.parse (MemoryStore.client MemoryStore.seedStore)
        (Some (type params)) None None
        (Some (domains params)) (Some (keywords params)) None 5 =
    match getSearchRecommendations JsonText.parse (MemoryStore.client MemoryStore.seedStore)
            {| currentDataset := None;
               searchQuery := None;
               contextDomains := Some (Nlp.domains (Nlp.processQuery "Employment by state"));
               contextKeywords := Some (Nlp.keywords (Nlp.processQuery "Employment by state"));
               userHistory := None |}
            (Some 5) with
    | Ok recommendations => answer "search" (map Plain recommendations)
    | Throw _ => InternalError "Internal server error"
    end.
Proof.
  apply (recommendations_after_search JsonText.parse (MemoryStore.client MemoryStore.seedStore)
           "Employment by state").
  by vm_compute.
Defined.

End DataDiscoveryAppFacts.
